(** * Multithreading and multiprocessing drill

    A shallow embedding of the five scripts of
    [16-Multithreading and Multiprocessing/multidrill]:
    the four strategy runners ([01_sequential.py], [02_threadpool.py],
    [03_processpool.py], [04_hybrid.py]) and the comparison harness
    ([run_all_comparison.py]).

    Python [int] is [Z], [str] is [string], [float] is an IEEE binary64
    value ([spec_float] at precision 53).  Scripts are computations in a
    state-and-failure monad over a [world] that holds the console, the
    clock, the process table and the scheduler's decisions. *)

From Stdlib Require Import ZArith Ascii String DecimalString DecimalZ.
From Stdlib Require Import Floats.SpecFloat.
From stdpp Require Import base tactics option list strings gmap.

Local Open Scope Z_scope.

(** ** Python values *)

Module Py.

(** The text of an [int]: decimal digits, a leading minus sign.  This is
    what [str(n)] gives when [n] is within the limit on digits below. *)
Definition str (n : Z) : string := NilZero.string_of_int (Z.to_int n).

(** [int(s)] restricted to what [str] prints. *)
Definition int (s : string) : option Z := Z.of_int <$> NilZero.int_of_string s.

(** [sys.get_int_max_str_digits()], at its default.  Turning an [int] of
    more decimal digits into text, with [str] or in an f-string, raises
    [ValueError]. *)
Definition int_max_str_digits : Z := 4300.

(** The least number with more digits than that, worked out once. *)
Definition int_max_str_bound : Z := Eval vm_compute in 10 ^ int_max_str_digits.

(** [n] has few enough digits to be turned into text. *)
Definition str_fits (n : Z) : bool := Z.abs n <? int_max_str_bound.

(** [s * n]: the string repeated. *)
Fixpoint str_mul (s : string) (n : nat) : string :=
  match n with
  | O => ""
  | S n' => s +:+ str_mul s n'
  end.

(** [s.split("\n")]: the lines of a text. *)
Fixpoint lines (s : string) : list string :=
  match s with
  | EmptyString => [""]
  | String c s' =>
      if Ascii.eqb c "010" then "" :: lines s'
      else match lines s' with
           | l :: ls => String c l :: ls
           | [] => [String c ""]
           end
  end.

(** Truth value of a string: empty is false. *)
Definition truthy (s : string) : bool :=
  match s with EmptyString => false | _ => true end.

(** [format(s, "<n")] and [format(s, ">n")]. *)
Definition ljust (width : nat) (s : string) : string :=
  s +:+ str_mul " " (width - String.length s).

Definition rjust (width : nat) (s : string) : string :=
  str_mul " " (width - String.length s) +:+ s.

(** IEEE binary64. *)
Definition prec : Z := 53.
Definition emax : Z := 1024.
Abbreviation float := spec_float.

Definition float_sub : float → float → float := SFsub prec emax.
Definition float_div : float → float → float := SFdiv prec emax.
Definition float_lt : float → float → bool := SFltb.
Definition float_of_int (z : Z) : float := binary_normalize prec emax z 0 false.

Definition is_zero (x : float) : bool :=
  match x with S754_zero _ => true | _ => false end.

Definition is_finite (x : float) : bool :=
  match x with S754_zero _ | S754_finite _ _ _ => true | _ => false end.

(** A number: the harness mixes [int] literals with [float] readings. *)
Inductive num := Int (z : Z) | Float (x : float).

Definition to_float (a : num) : float :=
  match a with Int z => float_of_int z | Float x => x end.

(** [a > 0]. *)
Definition gt_zero (a : num) : bool :=
  match a with
  | Int z => 0 <? z
  | Float x => float_lt (S754_zero false) x
  end.

(** [a / b]: true division; a zero divisor raises [ZeroDivisionError],
    which is [None] here. *)
Definition truediv (a b : num) : option float :=
  match b with
  | Int z => if z =? 0 then None else Some (float_div (to_float a) (float_of_int z))
  | Float y => if is_zero y then None else Some (float_div (to_float a) y)
  end.

(** Digits of a natural number padded on the left with zeros. *)
Definition zfill (width : nat) (s : string) : string :=
  str_mul "0" (width - String.length s) +:+ s.

(** Round a non-negative rational [n / d] to the nearest integer, ties to
    even. *)
Definition round_half_even (n d : Z) : Z :=
  let q := n / d in
  let r := n mod d in
  match 2 * r ?= d with
  | Lt => q
  | Gt => q + 1
  | Eq => if Z.even q then q else q + 1
  end.

(** [format(x, ".{digits}f")] for a float. *)
Definition format_f (digits : nat) (x : float) : string :=
  let fixed (neg : bool) (q : Z) :=
    let p := 10 ^ Z.of_nat digits in
    (if neg then "-" else "") +:+ str (q / p) +:+
    match digits with
    | O => ""
    | _ => "." +:+ zfill digits (str (q mod p))
    end in
  match x with
  | S754_nan => "nan"
  | S754_infinity s => if s then "-inf" else "inf"
  | S754_zero s => fixed s 0
  | S754_finite s m e =>
      let n := Z.pos m * 10 ^ Z.of_nat digits in
      fixed s (if 0 <=? e then n * 2 ^ e else round_half_even n (2 ^ (- e)))
  end.

Definition format_num_f (digits : nat) (a : num) : string :=
  format_f digits (to_float a).

(** [range(start, stop, step)] for a positive step. *)
Fixpoint range_from (fuel start stop step : nat) : list nat :=
  match fuel with
  | O => []
  | S fuel' =>
      if (start <? stop)%nat then start :: range_from fuel' (start + step) stop step
      else []
  end.

Definition range (start stop step : nat) : list nat :=
  range_from stop start stop step.

(** [l[i:j]] for non-negative bounds; out-of-range bounds are clamped. *)
Definition slice {A} (l : list A) (i j : nat) : list A :=
  take (j - i) (drop i l).

End Py.

Import Py.

(** ** The world and the script monad *)

(** What [subprocess.run(..., capture_output=True, text=True)] returns. *)
Record CompletedProcess := mkCompleted {
  returncode : Z;
  stdout : string;
  stderr : string
}.

(** The part of the machine the scripts see.  [clock], [sched], [fork] and
    [spawn] are read-only oracles: the readings of [time.time()], the
    scheduler's decisions, the process ids the operating system hands to
    pool workers, and the outcome of each launched command. *)
Record world := mkWorld {
  pid : Z;
  clock : nat → float;
  clock_reads : nat;
  console : list string;
  sleeps : list Z;
  sched : nat → nat;
  sched_used : nat;
  fork : nat → Z;
  spawn : list string → CompletedProcess;
  launched : list (list string)
}.

Definition set_pid (p : Z) (w : world) : world :=
  mkWorld p (clock w) (clock_reads w) (console w) (sleeps w) (sched w)
    (sched_used w) (fork w) (spawn w) (launched w).
Definition set_clock_reads (n : nat) (w : world) : world :=
  mkWorld (pid w) (clock w) n (console w) (sleeps w) (sched w)
    (sched_used w) (fork w) (spawn w) (launched w).
Definition set_console (c : list string) (w : world) : world :=
  mkWorld (pid w) (clock w) (clock_reads w) c (sleeps w) (sched w)
    (sched_used w) (fork w) (spawn w) (launched w).
Definition set_sleeps (l : list Z) (w : world) : world :=
  mkWorld (pid w) (clock w) (clock_reads w) (console w) l (sched w)
    (sched_used w) (fork w) (spawn w) (launched w).
Definition set_sched_used (n : nat) (w : world) : world :=
  mkWorld (pid w) (clock w) (clock_reads w) (console w) (sleeps w) (sched w)
    n (fork w) (spawn w) (launched w).
Definition set_launched (l : list (list string)) (w : world) : world :=
  mkWorld (pid w) (clock w) (clock_reads w) (console w) (sleeps w) (sched w)
    (sched_used w) (fork w) (spawn w) l.

(** A script: a state transformer that may fail to return ([None] stands
    for an uncaught exception or a wait that never ends). *)
Definition IO (A : Type) : Type := world → option (A * world).

#[global] Instance IO_ret : MRet IO := λ A a w, Some (a, w).
#[global] Instance IO_bind : MBind IO := λ A B k c w,
  match c w with
  | Some (a, w') => k a w'
  | None => None
  end.

Definition raise {A} : IO A := λ _, None.

(** [f"{n}"] for an [int]: its decimal digits, or [ValueError] when they
    are more than the limit allows. *)
Definition format_int (n : Z) : IO string :=
  if str_fits n then mret (str n) else raise.

(** [time.sleep(secs)] *)
Definition time_sleep (secs : Z) : IO unit :=
  λ w, Some (tt, set_sleeps (sleeps w ++ [secs]) w).

(** [time.time()] *)
Definition time_time : IO float :=
  λ w, Some (clock w (clock_reads w), set_clock_reads (S (clock_reads w)) w).

(** [print(s)] *)
Definition print (s : string) : IO unit :=
  λ w, Some (tt, set_console (console w ++ lines s) w).

(** [os.getpid()] *)
Definition os_getpid : IO Z := λ w, Some (pid w, w).

(** [subprocess.run(argv, capture_output=True, text=True, ...)]: without
    [check=True] a non-zero exit status raises nothing. *)
Definition subprocess_run (argv : list string) : IO CompletedProcess :=
  λ w, Some (spawn w argv, set_launched (launched w ++ [argv]) w).

(** The scheduler picks one of [n] enabled moves. *)
Definition choose (n : nat) : IO nat :=
  λ w, Some ((sched w (sched_used w) `mod` n)%nat, set_sched_used (S (sched_used w)) w).

(** Run [c] as the process [p], then come back. *)
Definition as_process {A} (p : Z) (c : IO A) : IO A :=
  λ w, match c (set_pid p w) with
       | Some (a, w') => Some (a, set_pid (pid w) w')
       | None => None
       end.

(** [for x in xs: acc = body(x, acc)] *)
Fixpoint for_each {A S} (xs : list A) (body : A → S → IO S) (acc : S) : IO S :=
  match xs with
  | [] => mret acc
  | x :: xs' => acc' ← body x acc; for_each xs' body acc'
  end.

(** ** The workload function *)

(** [01_sequential.py], [02_threadpool.py] and [03_processpool.py] define
    the same [square_number]. *)
Definition square_number (number : Z) : IO string :=
  time_sleep 2;;
  n ← format_int number;
  square ← format_int (number * number);
  mret ("Square of " +:+ n +:+ " = " +:+ square).

Definition numbers : list Z := [1; 2; 3; 4; 5; 6; 7; 8; 9; 10; 11; 12; 13; 14].

(** [04_hybrid.py]: the result also names the worker process.  A process
    id is a machine integer, far below the limit on digits. *)
Definition hybrid_square_number (number : Z) : IO string :=
  time_sleep 2;;
  n ← format_int number;
  square ← format_int (number * number);
  p ← os_getpid;
  mret ("Square of " +:+ n +:+ " = " +:+ square +:+ " (PID: " +:+ str p +:+ ")").

(** ** [concurrent.futures] *)

(** An executor is its pool of workers: the threads of a
    [ThreadPoolExecutor] run inside the calling process, the workers of a
    [ProcessPoolExecutor] are processes of their own. *)
Inductive Executor :=
  | Threads (threads : list Z)
  | Processes (pids : list Z).

Definition workers (ex : Executor) : list Z :=
  match ex with Threads ts => ts | Processes ps => ps end.

(** Where a worker runs a task. *)
Definition enter {B} (ex : Executor) (wk : Z) (task : IO B) : IO B :=
  match ex with
  | Threads _ => task
  | Processes _ => as_process wk task
  end.

(** [ThreadPoolExecutor(max_workers=n)] *)
Definition ThreadPoolExecutor (max_workers : nat) : IO Executor :=
  mret (Threads (Z.of_nat <$> seq 0 max_workers)).

(** [ProcessPoolExecutor(max_workers=n)]: the operating system names the
    worker processes. *)
Definition ProcessPoolExecutor (max_workers : nat) : IO Executor :=
  λ w, Some (Processes (fork w <$> seq 0 max_workers), w).

(** The pool while a [map] is in flight: idle workers, the queue of
    submitted work items (each with its submission index), the items being
    run and by whom, and one result slot per submitted item. *)
Record pool (A B : Type) := mkPool {
  idle : list Z;
  queue : list (nat * A);
  running : list (Z * (nat * A));
  slots : list (option B)
}.
Arguments mkPool {A B}.
Arguments idle {A B}.
Arguments queue {A B}.
Arguments running {A B}.
Arguments slots {A B}.

Section Pool.
Context {A B : Type}.

(** How many idle workers may take the head of the queue. *)
Definition startable (st : pool A B) : nat :=
  match queue st with
  | [] => 0
  | _ => length (idle st)
  end.

(** One move of the pool, picked by the scheduler among the enabled ones:
    an idle worker takes the item at the head of the queue, or a running
    item completes and stores its result in its own slot.  [None] when no
    move is enabled. *)
Definition pool_step (ex : Executor) (fn : A → IO B) (st : pool A B)
  : IO (option (pool A B)) :=
  let n := (startable st + length (running st))%nat in
  match n with
  | O => mret None
  | _ =>
      k ← choose n;
      if (k <? startable st)%nat then
        match idle st !! k, queue st with
        | Some wk, job :: q =>
            mret (Some (mkPool (delete k (idle st)) q
                          (running st ++ [(wk, job)]) (slots st)))
        | _, _ => raise
        end
      else
        match running st !! (k - startable st)%nat with
        | Some (wk, (i, x)) =>
            y ← enter ex wk (fn x);
            mret (Some (mkPool (idle st ++ [wk]) (queue st)
                          (delete (k - startable st)%nat (running st))
                          (<[i := Some y]> (slots st))))
        | None => raise
        end
  end.

Fixpoint pool_run (fuel : nat) (ex : Executor) (fn : A → IO B) (st : pool A B)
  : IO (pool A B) :=
  match fuel with
  | O => mret st
  | S fuel' =>
      r ← pool_step ex fn st;
      match r with
      | None => mret st
      | Some st' => pool_run fuel' ex fn st'
      end
  end.

(** [list(executor.map(fn, xs))] followed by the executor's shutdown: every
    item is submitted in order, the pool runs until nothing is left to do
    (each item costs two moves), and the results are read slot by slot;
    reading the result of an item that never completed does not return. *)
Definition executor_map (ex : Executor) (fn : A → IO B) (xs : list A)
  : IO (list B) :=
  st ← pool_run (2 * length xs) ex fn
         (mkPool (workers ex) (zip (seq 0 (length xs)) xs) []
                 (replicate (length xs) None));
  match mapM id (slots st) with
  | Some ys => mret ys
  | None => raise
  end.

End Pool.

(** ** The four strategy runners *)

Module Sequential.

(** [01_sequential.py]; the value returned is the final [results]. *)
Definition main : IO (list string) :=
  print (str_mul "=" 50);;
  print "APPROACH 1: Sequential (No Parallelism)";;
  print (str_mul "=" 50);;
  start ← time_time;
  results ← for_each numbers (λ num results,
    result ← square_number num;
    let results := results ++ [result] in
    print result;;
    mret results) [];
  now ← time_time;
  let elapsed := float_sub now start in
  print ("
[TIME] Total Time: " +:+ format_f 2 elapsed +:+ " seconds");;
  print ("[INFO] Items processed: " +:+ str (Z.of_nat (length numbers)));;
  print "[TIP]  Each item waited 2 sec, all ran one-by-one";;
  mret results.

End Sequential.

Module ThreadPool.

(** [02_threadpool.py]; the value returned is [results]. *)
Definition main : IO (list string) :=
  print (str_mul "=" 50);;
  print "APPROACH 2: ThreadPoolExecutor (14 threads)";;
  print (str_mul "=" 50);;
  start ← time_time;
  executor ← ThreadPoolExecutor 14;
  results ← executor_map executor square_number numbers;
  for_each results (λ result _, print result) tt;;
  now ← time_time;
  let elapsed := float_sub now start in
  print ("
[TIME] Total Time: " +:+ format_f 2 elapsed +:+ " seconds");;
  print ("[INFO] Items processed: " +:+ str (Z.of_nat (length numbers)));;
  print "[TIP]  All 14 threads ran simultaneously, GIL released during sleep";;
  mret results.

End ThreadPool.

Module ProcessPool.

(** [03_processpool.py]; the value returned is [results]. *)
Definition main : IO (list string) :=
  print (str_mul "=" 50);;
  print "APPROACH 3: ProcessPoolExecutor (3 processes)";;
  print (str_mul "=" 50);;
  start ← time_time;
  executor ← ProcessPoolExecutor 3;
  results ← executor_map executor square_number numbers;
  for_each results (λ result _, print result) tt;;
  now ← time_time;
  let elapsed := float_sub now start in
  print ("
[TIME] Total Time: " +:+ format_f 2 elapsed +:+ " seconds");;
  print ("[INFO] Items processed: " +:+ str (Z.of_nat (length numbers)));;
  print "[TIP]  3 processes, ~5 batches of 2 sec each";;
  mret results.

End ProcessPool.

Module Hybrid.

Definition square_number := hybrid_square_number.

Definition process_chunk (chunk : list Z) : IO (list string) :=
  thread_executor ← ThreadPoolExecutor 3;
  results ← executor_map thread_executor square_number chunk;
  mret results.

Definition chunk_size : nat := 5.

Definition chunks : list (list Z) :=
  (λ i, slice numbers i (i + chunk_size)) <$> range 0 (length numbers) chunk_size.

(** [04_hybrid.py]; the value returned is [all_results]. *)
Definition main : IO (list (list string)) :=
  print (str_mul "=" 50);;
  print "APPROACH 4: Hybrid (3 Processes × 3 Threads)";;
  print (str_mul "=" 50);;
  start ← time_time;
  process_executor ← ProcessPoolExecutor 3;
  all_results ← executor_map process_executor process_chunk chunks;
  for_each all_results (λ batch _,
    for_each batch (λ result _, print result) tt) tt;;
  now ← time_time;
  let elapsed := float_sub now start in
  print ("
[TIME] Total Time: " +:+ format_f 2 elapsed +:+ " seconds");;
  print ("[INFO] Items processed: " +:+ str (Z.of_nat (length numbers)));;
  print "[TIP]  3 processes x 3 threads = 9 parallel workers";;
  print "[TIP]  Notice different PIDs -- proves separate processes!";;
  mret all_results.

End Hybrid.

(** ** The comparison harness, [run_all_comparison.py] *)

Module Harness.

Definition approaches : list (string * string) :=
  [ ("01_sequential.py", "Sequential (No Parallelism)");
    ("02_threadpool.py", "ThreadPool (14 threads)");
    ("03_processpool.py", "ProcessPool (3 processes)");
    ("04_hybrid.py", "Hybrid (3 proc x 3 threads)") ].

(** [os.path.join(d, f)] for a relative [f]. *)
Definition os_path_join (d f : string) : string := d +:+ "/" +:+ f.

(** [sequential_time / elapsed if elapsed > 0 else 0]; [None] when the
    division raises. *)
Definition speedup (sequential_time : num) (elapsed : float) : option num :=
  if gt_zero (Float elapsed) then Float <$> truediv sequential_time (Float elapsed)
  else Some (Int 0).

(** [timings[0][1] if timings else 1] *)
Definition sequential_time (timings : list (string * float)) : num :=
  match timings with
  | (_, t) :: _ => Float t
  | [] => Int 1
  end.

Definition table_row (label : string) (elapsed : float) (speedup : num) : string :=
  ljust 35 label +:+ " " +:+ rjust 8 (format_f 2 elapsed) +:+ "s "
    +:+ rjust 8 (format_num_f 1 speedup) +:+ "x".

Section Main.
Variables (sys_executable SCRIPT_DIR : string).

Definition run_approach (script label : string) (timings : list (string * float))
  : IO (list (string * float)) :=
  print ("
" +:+ str_mul "_" 60);;
  print (">> Running: " +:+ label);;
  print (str_mul "_" 60);;
  start ← time_time;
  let script_path := os_path_join SCRIPT_DIR script in
  result ← subprocess_run [sys_executable; script_path];
  now ← time_time;
  let elapsed := float_sub now start in
  (if truthy (stdout result) then print (stdout result) else mret tt);;
  (if truthy (stderr result) then print ("Error: " +:+ stderr result) else mret tt);;
  mret (timings ++ [(label, elapsed)]).

Definition print_row (seq_time : num) (label : string) (elapsed : float) : IO unit :=
  match speedup seq_time elapsed with
  | Some s => print (table_row label elapsed s)
  | None => raise
  end.

(** The value returned is the final [timings]. *)
Definition main : IO (list (string * float)) :=
  print "MULTITHREADING & MULTIPROCESSING DRILL";;
  print (str_mul "=" 60);;
  print "Task: Compute square of 14 numbers, each with 2 sec I/O wait";;
  print "Sequential expected: 14 x 2 = 28 seconds";;
  print (str_mul "=" 60);;
  timings ← for_each approaches (λ '(script, label) timings,
    run_approach script label timings) [];
  print ("
" +:+ str_mul "=" 60);;
  print "FINAL COMPARISON";;
  print (str_mul "=" 60);;
  print (ljust 35 "Approach" +:+ " " +:+ rjust 10 "Time" +:+ " " +:+ rjust 10 "Speedup");;
  print (str_mul "-" 60);;
  let seq_time := sequential_time timings in
  for_each timings (λ '(label, elapsed) _, print_row seq_time label elapsed) tt;;
  print (str_mul "-" 60);;
  print "[TIP] Higher speedup = faster relative to sequential";;
  print "[WIN] For I/O-bound tasks, ThreadPool is the winner!";;
  mret timings.

End Main.
End Harness.

(** ** A sample machine *)

(** The thread-pool runner fails on it; the others print [ok]. *)
Definition sample_outcome (argv : list string) : CompletedProcess :=
  match argv with
  | [_; "/drill/02_threadpool.py"] => mkCompleted 1 "" "Traceback: boom
"
  | _ => mkCompleted 0 "ok
" ""
  end.

Definition sample_world : world :=
  mkWorld 100
    (λ n, float_of_int (nth n [1000; 1028; 1028; 1030; 1030; 1040; 1040; 1044] 0))
    0 [] []
          (λ n, (n * 5 + 3)%nat) 0 (λ k, 200 + Z.of_nat k) sample_outcome [].

(** ** Reading a result back *)

(** The text the three plain runners produce for [n]. *)
Definition square_text (n : Z) : string :=
  "Square of " +:+ str n +:+ " = " +:+ str (n * n).

(** The text the hybrid runner produces for [n] in the process [p]. *)
Definition hybrid_text (p n : Z) : string :=
  square_text n +:+ " (PID: " +:+ str p +:+ ")".

(** The square of [n], and with it [n], is short enough to be printed
    into a result line. *)
Definition square_fits (n : Z) : Prop := str_fits (n * n) = true.

Fixpoint strip_prefix (p s : string) : option string :=
  match p, s with
  | EmptyString, _ => Some s
  | String a p', String b s' => if Ascii.eqb a b then strip_prefix p' s' else None
  | String _ _, EmptyString => None
  end.

(** The word up to the first space, and what follows it. *)
Fixpoint until_space (s : string) : string * string :=
  match s with
  | EmptyString => ("", "")
  | String c s' =>
      if Ascii.eqb c " " then ("", s)
      else let '(word, rest) := until_space s' in (String c word, rest)
  end.

(** The character [c] does not occur in [s]. *)
Fixpoint lacks (c : ascii) (s : string) : bool :=
  match s with
  | EmptyString => true
  | String c' s' => negb (Ascii.eqb c' c) && lacks c s'
  end.

(** The two integers embedded in a result line
    [Square of {n} = {square}], whatever follows them. *)
Definition parse_result (s : string) : option (Z * Z) :=
  rest ← strip_prefix "Square of " s;
  let '(a, rest) := until_space rest in
  rest ← strip_prefix " = " rest;
  let '(b, _) := until_space rest in
  n ← int a;
  square ← int b;
  Some (n, square).

(** The result line without its [ (PID: ...)] suffix: everything before
    the first " (". *)
Fixpoint strip_pid (s : string) : string :=
  match s with
  | EmptyString => ""
  | String c s' =>
      match strip_prefix " (PID: " s with
      | Some _ => ""
      | None => String c (strip_pid s')
      end
  end.

(** ** What a runner prints *)

(** The console output of a strategy runner: banner, result lines, a blank
    line, the time line, the count line and the closing tips. *)
Definition transcript (title : string) (results : list string)
    (elapsed : float) (tips : list string) : list string :=
  [str_mul "=" 50; title; str_mul "=" 50] ++ results ++
  [""; "[TIME] Total Time: " +:+ format_f 2 elapsed +:+ " seconds";
   "[INFO] Items processed: 14"] ++ tips.

(** ** What the harness prints *)

Module Expected.
Import Harness.

Section Expected.
Variables (sys_executable SCRIPT_DIR : string).

(** The [k]-th launch is bracketed by clock readings [2k] and [2k+1]. *)
Definition elapsed_of (w : world) (k : nat) : float :=
  float_sub (clock w (clock_reads w + (2 * k + 1))%nat)
            (clock w (clock_reads w + 2 * k)%nat).

Definition argv_of (script : string) : list string :=
  [sys_executable; os_path_join SCRIPT_DIR script].

(** What the harness prints while it runs one strategy. *)
Definition section_of (label : string) (r : CompletedProcess) : list string :=
  [""; str_mul "_" 60; ">> Running: " +:+ label; str_mul "_" 60]
  ++ (if truthy (stdout r) then lines (stdout r) else [])
  ++ (if truthy (stderr r) then lines ("Error: " +:+ stderr r) else []).

Definition timings_of (w : world) : list (string * float) :=
  imap (λ k '(_, label), (label, elapsed_of w k)) approaches.

(** The speedup of a row, which [speedup] computes without raising. *)
Definition speedup_value (seq_time : num) (elapsed : float) : num :=
  if gt_zero (Float elapsed) then Float (float_div (to_float seq_time) elapsed)
  else Int 0.

Definition rows_of (timings : list (string * float)) : list string :=
  (λ '(label, elapsed),
     table_row label elapsed (speedup_value (sequential_time timings) elapsed))
  <$> timings.

Definition console_of (w : world) : list string :=
  [ "MULTITHREADING & MULTIPROCESSING DRILL"; str_mul "=" 60;
    "Task: Compute square of 14 numbers, each with 2 sec I/O wait";
    "Sequential expected: 14 x 2 = 28 seconds"; str_mul "=" 60 ]
  ++ concat ((λ '(script, label), section_of label (spawn w (argv_of script)))
             <$> approaches)
  ++ [ ""; str_mul "=" 60; "FINAL COMPARISON"; str_mul "=" 60;
       ljust 35 "Approach" +:+ " " +:+ rjust 10 "Time" +:+ " " +:+ rjust 10 "Speedup";
       str_mul "-" 60 ]
  ++ rows_of (timings_of w)
  ++ [ str_mul "-" 60;
       "[TIP] Higher speedup = faster relative to sequential";
       "[WIN] For I/O-bound tasks, ThreadPool is the winner!" ].

End Expected.
End Expected.

(** A row of the comparison table as line 65 formats it,
    [f"{label:<35} {elapsed:>8.2f}s {speedup:>8.1f}x"], where the speedup
    is [seq_elapsed / elapsed] for a positive [elapsed] and the integer 0
    otherwise, and [seq_elapsed] is the time of the first strategy run. *)
Definition row_text (seq_elapsed : float) (row : string * float) : string :=
  let '(label, elapsed) := row in
  ljust 35 label +:+ " " +:+ rjust 8 (format_f 2 elapsed) +:+ "s "
  +:+ rjust 8 (if float_lt (S754_zero false) elapsed
               then format_f 1 (float_div seq_elapsed elapsed)
               else "0.0")
  +:+ "x".

(** ** The strategies and what each returns to its caller *)

Inductive strategy :=
  | Run_sequential
  | Run_threadpool
  | Run_processpool
  | Run_hybrid.

#[global] Instance strategy_eq_dec : EqDecision strategy.
Proof. solve_decision. Defined.

(** The result strings of a run, in the order the caller gets them; the
    hybrid runner's batches are flattened the way its print loop walks
    them. *)
Definition results_of (s : strategy) (w : world) : option (list string) :=
  match s with
  | Run_sequential => fst <$> Sequential.main w
  | Run_threadpool => fst <$> ThreadPool.main w
  | Run_processpool => fst <$> ProcessPool.main w
  | Run_hybrid => (λ r, concat r.1) <$> Hybrid.main w
  end.

(** The squares embedded in a list of result lines. *)
Definition embedded_squares (rs : list string) : option (list Z) :=
  mapM (λ r, snd <$> parse_result r) rs.

(** Result [r] is the line for input [n]: it embeds [n] and [n * n]. *)
Definition result_for (n : Z) (r : string) : Prop :=
  parse_result r = Some (n, n * n).

(** ** Chunk sizing *)

(** The hybrid runner's comprehension
    [[l[i:i + k] for i in range(0, len(l), k)]] for any list and size. *)
Definition chunked {A} (l : list A) (k : nat) : list (list A) :=
  (λ i, slice l i (i + k)) <$> range 0 (length l) k.

(** Ceiling division, the sizing rule the comment next to [chunk_size]
    quotes. *)
Definition ceil_div (a b : nat) : nat := ((a + b - 1) / b)%nat.

(** ** The output format as the specification words it *)

(** A banner, the result lines, a blank line, the line
    [Total Time: {seconds:.2f} seconds], the items-processed line, and
    nothing after it. *)
Definition claimed_format (hybrid : bool) (out : list string) : Prop :=
  ∃ banner results seconds count_line,
    out = banner ++ results
          ++ [""; "Total Time: " +:+ format_f 2 seconds +:+ " seconds"; count_line]
    ∧ Forall (λ r, ∃ n, if hybrid then ∃ p, r = hybrid_text p n
                        else r = square_text n) results.

(** [c] returns [a] and adds the lines [out] to the console. *)
Definition prints {A} (c : IO A) (w : world) (a : A) (out : list string) : Prop :=
  ∃ w', c w = Some (a, w') ∧ console w' = console w ++ out.

(** [1.0] *)
Definition float_one : float := S754_finite false 4503599627370496 (-52).

(** What the sequential runner prints on the sample machine. *)
Definition sample_transcript : list string :=
  [ "==================================================";
    "APPROACH 1: Sequential (No Parallelism)";
    "==================================================";
    "Square of 1 = 1"; "Square of 2 = 4"; "Square of 3 = 9";
    "Square of 4 = 16"; "Square of 5 = 25"; "Square of 6 = 36";
    "Square of 7 = 49"; "Square of 8 = 64"; "Square of 9 = 81";
    "Square of 10 = 100"; "Square of 11 = 121"; "Square of 12 = 144";
    "Square of 13 = 169"; "Square of 14 = 196";
    "";
    "[TIME] Total Time: 28.00 seconds";
    "[INFO] Items processed: 14";
    "[TIP]  Each item waited 2 sec, all ran one-by-one" ].

(** ** The pool's invariant *)

(** What holds of the pool of executor [e] at every moment of a [map] over
    [xs] whose tasks return [g worker item]: filled slots hold the value of
    their own item, every empty slot's item is queued or running, and a
    worker is there to make progress. *)
Record pool_inv {A B} (e : Executor) (g : Z → A → B) (xs : list A)
    (st : pool A B) : Prop := {
  inv_len : length (slots st) = length xs;
  inv_done : ∀ i y, slots st !! i = Some (Some y) →
    ∃ wk x, wk ∈ workers e ∧ xs !! i = Some x ∧ y = g wk x;
  inv_todo : ∀ i, slots st !! i = Some None →
    (∃ x, (i, x) ∈ queue st) ∨ (∃ wk x, (wk, (i, x)) ∈ running st);
  inv_queue : ∀ i x, (i, x) ∈ queue st → xs !! i = Some x;
  inv_running : ∀ wk i x, (wk, (i, x)) ∈ running st →
    xs !! i = Some x ∧ wk ∈ workers e;
  inv_idle : ∀ wk, wk ∈ idle st → wk ∈ workers e;
  inv_live : idle st ≠ [] ∨ running st ≠ []
}.

(** The moves still to come: two per queued item, one per running item. *)
Definition measure {A B} (st : pool A B) : nat :=
  2 * length (queue st) + length (running st).

(** ** Characters *)

Definition not_numeric (c : ascii) : Prop :=
  lacks c "-0123456789" = true.

(** ** What a script does to the world *)

(** What a script changed: it wrote [out] to the console, read the clock
    [reads] times and launched [cmds]; the process id and the oracles are
    as before. *)
Record frame (w w' : world) (out : list string) (reads : nat)
    (cmds : list (list string)) : Prop := {
  frame_pid : pid w' = pid w;
  frame_clock : clock w' = clock w;
  frame_sched : sched w' = sched w;
  frame_fork : fork w' = fork w;
  frame_spawn : spawn w' = spawn w;
  frame_console : console w' = console w ++ out;
  frame_reads : clock_reads w' = (clock_reads w + reads)%nat;
  frame_launched : launched w' = launched w ++ cmds
}.

Abbreviation quiet w w' := (frame w w' [] 0 []).

(** [c] returns [a], having printed [out], read the clock [reads] times and
    launched [cmds]. *)
Definition yields {A} (c : IO A) (w : world) (a : A) (out : list string)
    (reads : nat) (cmds : list (list string)) : Prop :=
  ∃ w', c w = Some (a, w') ∧ frame w w' out reads cmds.

(** The clock readings that bracket a runner's work. *)
Definition started (w : world) : float := clock w (clock_reads w).
Definition finished (w : world) : float := clock w (S (clock_reads w)).

(** The hybrid runner: which process takes which chunk is up to the
    scheduler, so the batches are known up to the process ids in them. *)
Definition hybrid_batches (w : world) (batches : list (list string)) : Prop :=
  Forall2 (λ chunk batch,
             ∃ p, p ∈ fork w <$> seq 0 3 ∧ batch = hybrid_text p <$> chunk)
    Hybrid.chunks batches.

(** ** The runners' work on any input *)

(** The loop of [01_sequential.py] over any list of numbers. *)
Definition loop_results (xs : list Z) : IO (list string) :=
  for_each xs (λ num results,
    result ← square_number num;
    let results := results ++ [result] in
    print result;;
    mret results) [].

(** The [with] block of [02_threadpool.py] for any pool size and input. *)
Definition thread_map (max_workers : nat) (xs : list Z) : IO (list string) :=
  executor ← ThreadPoolExecutor max_workers;
  executor_map executor square_number xs.

(** The [with] block of [03_processpool.py] for any pool size and input. *)
Definition process_map (max_workers : nat) (xs : list Z) : IO (list string) :=
  executor ← ProcessPoolExecutor max_workers;
  executor_map executor square_number xs.

(** * The drills *)

(** ** Console programs

    The scripts under [DRILLS] talk to a terminal and to a few files.
    Their machine holds what is still to be typed, the text written to
    standard output so far, and the files by name. *)

Module Console.

Inductive exn :=
  | ValueError (msg : string)
  | ZeroDivisionError
  | OverflowError
  | IndexError
  | StopIteration
  | KeyboardInterrupt
  | EOFError
  | FileNotFoundError (name : string).

(** How a call ends: it returns, it raises, or the model ran out of fuel. *)
Inductive result (A : Type) :=
  | Ok (a : A)
  | Raised (e : exn)
  | OutOfFuel.
Arguments Ok {A}.
Arguments Raised {A}.
Arguments OutOfFuel {A}.

(** What the user does at a prompt: type a line, or press Ctrl+C.  When
    nothing is left the input is at its end. *)
Inductive key :=
  | Line (s : string)
  | CtrlC.

Record machine := mkMachine {
  typed : list key;
  screen : string;
  disk : gmap string string
}.

Definition Prog (A : Type) : Type := machine → result A * machine.

#[global] Instance Prog_ret : MRet Prog := λ A a m, (Ok a, m).
#[global] Instance Prog_bind : MBind Prog := λ A B k c m,
  match c m with
  | (Ok a, m') => k a m'
  | (Raised e, m') => (Raised e, m')
  | (OutOfFuel, m') => (OutOfFuel, m')
  end.

(** [raise e] *)
Definition throw {A} (e : exn) : Prog A := λ m, (Raised e, m).

Definition out_of_fuel {A} : Prog A := λ m, (OutOfFuel, m).

(** [try: body  except ... as e: handler(e)]; a handler re-raises what it
    does not catch. *)
Definition try_except {A} (body : Prog A) (handler : exn → Prog A) : Prog A :=
  λ m, match body m with
       | (Raised e, m') => handler e m'
       | r => r
       end.

Definition write (s : string) : Prog unit :=
  λ m, (Ok tt, mkMachine (typed m) (screen m +:+ s) (disk m)).

(** [print(s)] *)
Definition print (s : string) : Prog unit := write (s +:+ "
").

(** [f"{n}"] for an [int]: its decimal digits, or [ValueError] when they
    are more than the limit allows. *)
Definition format_int (n : Z) : Prog string :=
  if str_fits n then mret (str n)
  else throw (ValueError "Exceeds the limit (4300 digits) for integer string conversion; use sys.set_int_max_str_digits() to increase the limit").

(** Reading a line: the end of the input raises [EOFError], Ctrl+C raises
    [KeyboardInterrupt]. *)
Definition read_key : Prog string :=
  λ m, match typed m with
       | [] => (Raised EOFError, m)
       | CtrlC :: rest => (Raised KeyboardInterrupt, mkMachine rest (screen m) (disk m))
       | Line s :: rest => (Ok s, mkMachine rest (screen m) (disk m))
       end.

(** [input(prompt)]: the prompt is written without a newline, then a line
    is read. *)
Definition input (prompt : string) : Prog string :=
  write prompt;;
  read_key.

(** [os.path.exists(name)] for a file. *)
Definition exists_ (name : string) : Prog bool :=
  λ m, (Ok (bool_decide (is_Some (disk m !! name))), m).

(** [open(name, "r").read()] *)
Definition read_file (name : string) : Prog string :=
  λ m, match disk m !! name with
       | Some text => (Ok text, m)
       | None => (Raised (FileNotFoundError name), m)
       end.

(** [open(name, "w").write(text)]: the file is created or replaced. *)
Definition write_file (name text : string) : Prog unit :=
  λ m, (Ok tt, mkMachine (typed m) (screen m) (<[name := text]> (disk m))).

(** [for x in xs: acc = body(x, acc)] *)
Fixpoint for_each {A S} (xs : list A) (body : A → S → Prog S) (acc : S) : Prog S :=
  match xs with
  | [] => mret acc
  | x :: xs' => acc' ← body x acc; for_each xs' body acc'
  end.

(** [open(name, "a").write(text)]: the text goes after what the file
    holds; a file that is not there is created. *)
Definition append_file (name text : string) : Prog unit :=
  λ m, (Ok tt, mkMachine (typed m) (screen m)
                 (<[name := default "" (disk m !! name) +:+ text]> (disk m))).

(** [row[i]] *)
Definition item (row : list string) (i : nat) : Prog string :=
  match row !! i with
  | Some cell => mret cell
  | None => throw IndexError
  end.

(** [next(reader)]: the first row and the rest. *)
Definition next_row (reader : list (list string))
  : Prog (list string * list (list string)) :=
  match reader with
  | [] => throw StopIteration
  | row :: rest => mret (row, rest)
  end.

End Console.

(** ** [drill4(8)/drill_8.py] *)

Module Drill8.
Import Console.

(** Balances and amounts are [int]s, as in the drill's own test code. *)
Record BankAccount := mkAccount {
  owner : string;
  balance : Z
}.

(** [BankAccount(owner, starting_balance)] *)
Definition init (owner : string) (starting_balance : Z) : BankAccount :=
  mkAccount owner starting_balance.

(** Code that works on an account.  The methods change [self] in place,
    and a call that raises after such a change leaves it behind: however
    the code ends, it gives the account as it leaves it. *)
Definition Acct (A : Type) : Type :=
  BankAccount → machine → result A * BankAccount * machine.

#[global] Instance Acct_ret : MRet Acct := λ A a self m, (Ok a, self, m).
#[global] Instance Acct_bind : MBind Acct := λ A B k c self m,
  match c self m with
  | (Ok a, self', m') => k a self' m'
  | (Raised e, self', m') => (Raised e, self', m')
  | (OutOfFuel, self', m') => (OutOfFuel, self', m')
  end.

(** Code that does not touch the account. *)
Definition lift {A} (c : Prog A) : Acct A :=
  λ self m, let '(r, m') := c m in (r, self, m').

(** [self.owner], [self.balance] and [self.balance = b]. *)
Definition get_owner : Acct string := λ self m, (Ok (owner self), self, m).
Definition get_balance : Acct Z := λ self m, (Ok (balance self), self, m).
Definition set_balance (b : Z) : Acct unit :=
  λ self m, (Ok tt, mkAccount (owner self) b, m).

(** [try: body  except ... as e: handler(e)] *)
Definition catch {A} (body : Acct A) (handler : exn → Acct A) : Acct A :=
  λ self m, match body self m with
            | (Raised e, self', m') => handler e self' m'
            | r => r
            end.

Definition deposit (amount : Z) : Acct unit :=
  b ← get_balance;
  set_balance (b + amount);;
  amount_text ← lift (format_int amount);
  b ← get_balance;
  balance_text ← lift (format_int b);
  lift (print ("Deposited " +:+ amount_text +:+ ". New Balance: "
               +:+ balance_text)).

Definition withdraw (amount : Z) : Acct unit :=
  b ← get_balance;
  if amount <=? b then
    set_balance (b - amount);;
    amount_text ← lift (format_int amount);
    b ← get_balance;
    balance_text ← lift (format_int b);
    lift (print ("Withdrew " +:+ amount_text +:+ ". New Balance: "
                 +:+ balance_text))
  else lift (throw (ValueError "Insufficient Funds")).

(** The test code at the end of the file: how it ends, and [my_account]
    and the machine as it leaves them. *)
Definition main : machine → result unit * BankAccount * machine :=
  λ m,
  let '(_, m) := print "--- Creating Account ---" m in
  let my_account := init "Alice" 100 in
  (o ← get_owner;
   b ← get_balance;
   balance_text ← lift (format_int b);
   lift (print ("Account for " +:+ o +:+ " created with $" +:+ balance_text));;
   lift (print "
--- Testing Deposit ---");;
   deposit 50;;
   lift (print "
--- Testing Withdraw ---");;
   withdraw 30;;
   lift (print "
--- Testing Overdraft (Should crash if not handled!) ---");;
   catch (withdraw 500)
     (λ e, match e with
           | ValueError msg =>
               lift (print ("Success! Caught expected error: " +:+ msg))
           | _ => lift (throw e)
           end)) my_account m.

End Drill8.

(** ** [drill3(6)/drill_6.py] *)

Module Drill6.
Import Console.

Section WithInt.
(** [int(s)] for a string: [None] where it raises [ValueError]. *)
Variable py_int : string → option Z.

Definition int_of (s : string) : Prog Z :=
  match py_int s with
  | Some n => mret n
  | None => throw (ValueError "invalid literal for int()")
  end.

(** The [while True] loop, with a bound on its rounds. *)
Fixpoint get_valid_number_loop (fuel : nat) : Prog (option Z) :=
  match fuel with
  | O => out_of_fuel
  | S fuel' =>
      try_except
        (user_input ← input "Enter a number: ";
         number ← int_of user_input;
         mret (Some number))
        (λ e, match e with
              | ValueError _ =>
                  print "Invalid input. Please enter a valid number.";;
                  get_valid_number_loop fuel'
              | KeyboardInterrupt | EOFError =>
                  print "
Goodbye!";;
                  mret None
              | _ => throw e
              end)
  end.

(** What a rejected line adds to the screen: the prompt that asked for
    it and the complaint that followed. *)
Definition retry_text : string :=
  "Enter a number: Invalid input. Please enter a valid number.
".

(** Every round but the last consumes a typed line, so one round more than
    there are keys left is enough. *)
Definition get_valid_number : Prog (option Z) :=
  λ m, get_valid_number_loop (S (length (typed m))) m.

(** The test code at the end of the file. *)
Definition main : Prog unit :=
  print "Please enter your age:";;
  age ← get_valid_number;
  match age with
  | Some age =>
      text ← format_int age;
      print ("Success! Your age is " +:+ text)
  | None => mret tt
  end.

End WithInt.
End Drill6.

(** ** [drill2(5)/drill_5.py] *)

Module Drill5.
Import Console.

Section WithLibraries.
(** The rows [csv.reader] yields for the text of a file. *)
Variable csv_reader : string → list (list string).
(** [int(s)] for a string: [None] where it raises [ValueError]. *)
Variable py_int : string → option Z.
(** [a / b] for integers and [b] not zero: [None] where the quotient is too
    large for a float. *)
Variable int_truediv : Z → Z → option float.
(** [str(x)] for a float. *)
Variable str_float : float → string.

Definition int_of (s : string) : Prog Z :=
  match py_int s with
  | Some n => mret n
  | None => throw (ValueError "invalid literal for int()")
  end.

(** [a / b] *)
Definition truediv (a b : Z) : Prog float :=
  if b =? 0 then throw ZeroDivisionError
  else match int_truediv a b with
       | Some x => mret x
       | None => throw OverflowError
       end.

(** The function names the files itself; its two arguments are not used. *)
Definition generate_stats_report (input_file output_file : string) : Prog unit :=
  let total_age := 0 in
  let count := 0 in
  file ← read_file "drill_5_data.csv";
  let reader := csv_reader file in
  '(_, reader) ← next_row reader;
  '(total_age, count) ← for_each reader (λ row '(total_age, count),
      cell ← item row 1;
      age ← int_of cell;
      let total_age := total_age + age in
      let count := count + 1 in
      mret (total_age, count)) (total_age, count);
  avg ← truediv total_age count;
  write_file "stats.txt" ("Average Age: " +:+ str_float avg).

(** The test code at the end of the file. *)
Definition main : Prog unit :=
  generate_stats_report "drill_5_data.csv" "stats.txt";;
  print "Check stats.txt for the result!".

End WithLibraries.

(** The age cell of a data row reads as [age]. *)
Definition row_age (py_int : string → option Z) (row : list string) (age : Z)
  : Prop :=
  ∃ cell, row !! 1%nat = Some cell ∧ py_int cell = Some age.

(** Stand-ins for the libraries, good for files without quotes, blank
    lines or carriage returns and for small integers. *)
Fixpoint sample_csv_go (cell : string) (row : list string) (s : string)
  : list (list string) :=
  match s with
  | EmptyString =>
      match row, cell with
      | [], EmptyString => []
      | _, _ => [reverse (String.rev cell :: row)]
      end
  | String c s' =>
      if Ascii.eqb c "," then sample_csv_go "" (String.rev cell :: row) s'
      else if Ascii.eqb c "010" then
        reverse (String.rev cell :: row) :: sample_csv_go "" [] s'
      else sample_csv_go (String c cell) row s'
  end.

Definition sample_csv_reader (text : string) : list (list string) :=
  sample_csv_go "" [] text.

Definition sample_int_truediv (a b : Z) : option float :=
  Some (float_div (float_of_int a) (float_of_int b)).

Definition sample_str_float (x : float) : string := format_f 1 x.

Definition sample_disk : gmap string string :=
  {[ "drill_5_data.csv" := "name,age
Ann,30
Bob,41
" ]}.

End Drill5.

(** ** [expense_tracker.py] *)

Module Tracker.
Import Console.

Definition float_add : float → float → float := SFadd prec emax.

(** What a row handed to [csv.writer] holds. *)
Inductive cell :=
  | Text (s : string)
  | Number (x : float).

Record Expense := mkExpense {
  category : string;
  amount : float;
  date : string
}.

Record ExpenseTracker := mkTracker {
  filename : string
}.

(** A [dict] with string keys: the items in insertion order. *)
Definition dict := list (string * float).

(** [d.get(k)] *)
Fixpoint dict_get (k : string) (d : dict) : option float :=
  match d with
  | [] => None
  | (k', v) :: d' => if String.eqb k' k then Some v else dict_get k d'
  end.

(** [d[k] = v]: a key that is there keeps its place. *)
Fixpoint dict_set (k : string) (v : float) (d : dict) : dict :=
  match d with
  | [] => [(k, v)]
  | (k', v') :: d' =>
      if String.eqb k' k then (k', v) :: d' else (k', v') :: dict_set k v d'
  end.

Section WithLibraries.
(** The rows [csv.reader] yields for the text of a file. *)
Variable csv_reader : string → list (list string).
(** The text [csv.writer.writerow] writes for a row of strings. *)
Variable csv_row : list string → string.
(** [float(s)] for a string: [None] where it raises [ValueError]. *)
Variable py_float : string → option float.
(** [str(x)] for a float. *)
Variable str_float : float → string.
(** [datetime.date.today().isoformat()] *)
Variable today : string.

Definition float_of (s : string) : Prog float :=
  match py_float s with
  | Some x => mret x
  | None => throw (ValueError "could not convert string to float")
  end.

(** [Expense(category, amount)] *)
Definition Expense_init (category : string) (amount : float) : Expense :=
  mkExpense category amount today.

Definition to_csv_row (self : Expense) : list cell :=
  [Text (date self); Text (category self); Number (amount self)].

(** [writer.writerow(row)]: a number is written as [str] gives it. *)
Definition writerow_text (row : list cell) : string :=
  csv_row ((λ c, match c with Text s => s | Number x => str_float x end) <$> row).

(** [ExpenseTracker(filename)] *)
Definition init (filename : string) : Prog ExpenseTracker :=
  let self := mkTracker filename in
  e ← exists_ (Tracker.filename self);
  (if negb e then
     write_file (Tracker.filename self)
       (writerow_text [Text "date"; Text "category"; Text "amount"])
   else mret tt);;
  mret self.

Definition add_expense (self : ExpenseTracker) : Prog unit :=
  print "
--- Add New Expense ---";;
  category ← input "Enter category: ";
  amount ← (s ← input "Enter amount: "; float_of s);
  let expense := Expense_init category amount in
  append_file (filename self) (writerow_text (to_csv_row expense));;
  print "Expense Saved!".

Definition show_summary (self : ExpenseTracker) : Prog unit :=
  print "
--- Expense Summary ---";;
  e ← exists_ (filename self);
  if negb e then print "No expenses yet."
  else
    let summary : dict := [] in
    f ← read_file (filename self);
    let reader := csv_reader f in
    '(_, reader) ← next_row reader;
    summary ← for_each reader (λ row summary,
        category ← item row 1;
        cell ← item row 2;
        amount ← float_of cell;
        match dict_get category summary with
        | Some total => mret (dict_set category (float_add total amount) summary)
        | None => mret (dict_set category amount summary)
        end) summary;
    for_each summary (λ '(category, amount) _,
        print (category +:+ ": $" +:+ str_float amount)) tt.

(** The menu loop.  Every round reads a key, so a round for each typed key
    and one more, at which the input has ended, are enough. *)
Fixpoint menu_loop (fuel : nat) (tracker : ExpenseTracker) : Prog unit :=
  match fuel with
  | O => out_of_fuel
  | S fuel =>
      print "
1. Add Expense";;
      print "2. Show Summary";;
      print "3. Exit";;
      choice ← input "Select (1-3): ";
      if String.eqb choice "1" then
        add_expense tracker;; menu_loop fuel tracker
      else if String.eqb choice "2" then
        show_summary tracker;; menu_loop fuel tracker
      else if String.eqb choice "3" then
        print "Goodbye!"
      else
        print "Invalid choice!";; menu_loop fuel tracker
  end.

Definition main : Prog unit :=
  λ m, (tracker ← init "expenses.csv";
        menu_loop (S (length (typed m))) tracker) m.

End WithLibraries.

(** The category and the amount a data row reads as. *)
Definition row_entry (py_float : string → option float) (row : list string)
    (e : string * float) : Prop :=
  row !! 1%nat = Some e.1
  ∧ ∃ cell, row !! 2%nat = Some cell ∧ py_float cell = Some e.2.

(** The categories in the order of their first appearance. *)
Fixpoint first_seen (cs : list string) : list string :=
  match cs with
  | [] => []
  | c :: cs' => c :: filter (λ c', c' ≠ c) (first_seen cs')
  end.

(** The amounts entered for a category, oldest first, added up from the
    left, starting with the first one. *)
Definition total_of (c : string) (entries : list (string * float)) : float :=
  match (filter (λ e, e.1 = c) entries).*2 with
  | [] => float_of_int 0
  | a :: amounts => foldl float_add a amounts
  end.

Definition totals (entries : list (string * float)) : dict :=
  (λ c, (c, total_of c entries)) <$> first_seen entries.*1.

(** The dictionary of the summary after one more entry. *)
Definition tally (d : dict) (e : string * float) : dict :=
  match dict_get e.1 d with
  | Some total => dict_set e.1 (float_add total e.2) d
  | None => dict_set e.1 e.2 d
  end.

(** The lines of the summary. *)
Definition summary_text (str_float : float → string) (d : dict) : string :=
  foldr (λ '(c, x) text, c +:+ ": $" +:+ str_float x +:+ "
" +:+ text) "" d.

(** Stand-ins for the libraries, good for plain cells and small whole
    amounts. *)
Definition sample_csv_row (row : list string) : string :=
  String.concat "," row +:+ String "013" (String "010" "").

Definition sample_float (s : string) : option float :=
  match int s with
  | Some n => Some (float_of_int n)
  | None =>
      whole ← strip_prefix "0." (String.rev s);
      float_of_int <$> int (String.rev whole)
  end.

Definition sample_csv_reader (text : string) : list (list string) :=
  Drill5.sample_csv_go "" []
    (string_of_list_ascii
       (filter (λ c, c ≠ "013"%char) (list_ascii_of_string text))).

Definition sample_expenses : gmap string string :=
  {[ "expenses.csv" := "date,category,amount
2026-01-05,Food,12
2026-01-06,Travel,30
2026-01-09,Food,8
" ]}.

End Tracker.

(** * Proofs *)

(** ** Sample values *)

Example str_196 : str 196 = "196". Proof. reflexivity. Qed.
Example str_neg : str (-5) = "-5". Proof. reflexivity. Qed.
Example str_zero : str 0 = "0". Proof. reflexivity. Qed.
Example lines_ex : lines "
ab" = [""; "ab"]. Proof. reflexivity. Qed.
Example format_28 :
  format_f 2 (float_of_int 28) = "28.00". Proof. vm_compute. reflexivity. Qed.
Example format_half :
  format_f 1 (float_div (float_of_int 5) (float_of_int 4)) = "1.2".
Proof. vm_compute. reflexivity. Qed.
Example format_third :
  format_f 2 (float_div (float_of_int 28) (float_of_int 3)) = "9.33".
Proof. vm_compute. reflexivity. Qed.
Example format_small_neg :
  format_f 2 (float_div (float_of_int (-1)) (float_of_int 1000)) = "-0.00".
Proof. vm_compute. reflexivity. Qed.


(** ** Running scripts *)

Lemma run_bind {A B} (c : IO A) (k : A → IO B) (w : world) :
  (c ≫= k) w = match c w with Some (a, w') => k a w' | None => None end.
Proof. reflexivity. Qed.

Lemma run_ret {A} (a : A) (w : world) : mret (M := IO) a w = Some (a, w).
Proof. reflexivity. Qed.

Lemma run_bind_Some {A B} (c : IO A) (k : A → IO B) (w w' : world) (a : A) :
  c w = Some (a, w') → (c ≫= k) w = k a w'.
Proof. intros H. rewrite run_bind, H. reflexivity. Qed.

(** ** The pool delivers every result, whatever the scheduler decides *)

Section PoolCorrect.
Context {A B : Type}.
Variables (e : Executor) (fn : A → IO B).
(** The value a task returns depends on its input and the worker that runs
    it only; [P] is what the tasks may assume about the world. *)
Variables (g : Z → A → B) (P : world → Prop).
Variable xs : list A.
Hypothesis task_runs : ∀ wk x w, x ∈ xs → P w → wk ∈ workers e →
  ∃ w', enter e wk (fn x) w = Some (g wk x, w') ∧ P w'.
Hypothesis sched_irrelevant : ∀ n w, P w → P (set_sched_used n w).
Hypothesis has_workers : workers e ≠ [].

Local Abbreviation inv := (pool_inv e g xs).

Lemma elem_of_delete_other {T} (l : list T) (j : nat) (a b : T) :
  l !! j = Some b → a ∈ l → a ≠ b → a ∈ delete j l.
Proof.
  intros Hj Ha Hne. rewrite delete_take_drop.
  rewrite <- (take_drop_middle l j b Hj) in Ha.
  rewrite elem_of_app, elem_of_cons in Ha. rewrite elem_of_app.
  destruct Ha as [?|[?|?]]; [by left|done|by right].
Qed.

Lemma elem_of_delete_sub {T} (l : list T) (j : nat) (a : T) :
  a ∈ delete j l → a ∈ l.
Proof. intros H. eapply elem_of_sublist; [done|apply sublist_delete]. Qed.

Lemma pool_init_inv :
  inv (mkPool (workers e) (zip (seq 0 (length xs)) xs) []
              (replicate (length xs) None)).
Proof.
  split; simpl.
  - apply length_replicate.
  - intros i y H. apply lookup_replicate in H as [? _]. done.
  - intros i H. apply lookup_replicate in H as [_ Hi]. left.
    destruct (lookup_lt_is_Some_2 xs i Hi) as [x Hx]. exists x.
    apply list_elem_of_lookup. exists i. apply lookup_zip_with_Some.
    exists i, x. split_and!; [done| |done].
    by apply lookup_seq.
  - intros i x H. apply list_elem_of_lookup in H as [j Hj].
    apply lookup_zip_with_Some in Hj as (i' & x' & [= <- <-] & Hs & Hx).
    apply lookup_seq in Hs as [-> _]. done.
  - intros wk i x H. by apply elem_of_nil in H.
  - done.
  - by left.
Qed.

Lemma pool_step_inv (st : pool A B) (w : world) :
  inv st → P w →
  (∃ w', pool_step e fn st w = Some (None, w') ∧ P w'
         ∧ queue st = [] ∧ running st = []) ∨
  (∃ st' w', pool_step e fn st w = Some (Some st', w') ∧ P w'
         ∧ inv st' ∧ (measure st' < measure st)%nat).
Proof.
  intros Inv HP. unfold pool_step.
  destruct (startable st + length (running st))%nat as [|n] eqn:Hn.
  { left. exists w. split_and!; [done|done| |].
    - destruct Inv. unfold startable in Hn.
      destruct (queue st); [done|].
      destruct (running st); [|simpl in Hn; lia].
      destruct (idle st); [|simpl in Hn; lia].
      by destruct inv_live0.
    - destruct (running st); [done|simpl in Hn; lia]. }
  right. rewrite run_bind. unfold choose at 1.
  set (k := (sched w (sched_used w) `mod` S n)%nat).
  assert (Hk : (k < S n)%nat) by (apply Nat.mod_upper_bound; lia).
  set (w1 := set_sched_used (S (sched_used w)) w).
  assert (HP1 : P w1) by by apply sched_irrelevant.
  destruct (k <? startable st)%nat eqn:Hks.
  - apply Nat.ltb_lt in Hks. unfold startable in Hks, Hn |- *.
    destruct (queue st) as [|job q] eqn:Hq; [lia|].
    destruct (lookup_lt_is_Some_2 (idle st) k Hks) as [wk Hwk].
    rewrite Hwk. eexists _, w1. split_and!; [reflexivity|done| |].
    + destruct Inv. split; simpl.
      * done.
      * done.
      * intros i Hi. destruct (inv_todo0 i Hi) as [[x Hx]|(wk' & x & Hx)].
        -- rewrite Hq in Hx. apply elem_of_cons in Hx as [<-|Hx].
           ++ right. exists wk, x. apply elem_of_app. right. by apply list_elem_of_singleton.
           ++ left. by exists x.
        -- right. exists wk', x. apply elem_of_app. by left.
      * intros i x Hx. apply inv_queue0. rewrite Hq. by apply elem_of_cons; right.
      * intros wk' i x Hx. apply elem_of_app in Hx as [Hx|Hx].
        -- by apply inv_running0.
        -- apply list_elem_of_singleton in Hx as [= -> <-]. split.
           ++ apply inv_queue0. rewrite Hq. by apply elem_of_cons; left.
           ++ apply inv_idle0. by eapply list_elem_of_lookup_2.
      * intros wk' Hwk'. apply inv_idle0. by eapply elem_of_delete_sub.
      * right. by destruct (running st).
    + unfold measure. simpl. rewrite Hq, length_app. simpl. lia.
  - apply Nat.ltb_ge in Hks.
    assert (Hj : (k - startable st < length (running st))%nat) by lia.
    destruct (lookup_lt_is_Some_2 _ _ Hj) as [[wk [i x]] Hr].
    rewrite Hr. destruct Inv.
    assert (Hin : (wk, (i, x)) ∈ running st) by by eapply list_elem_of_lookup_2.
    destruct (inv_running0 _ _ _ Hin) as [Hx Hwk].
    destruct (task_runs wk x w1 (list_elem_of_lookup_2 _ _ _ Hx) HP1 Hwk)
      as (w2 & Hrun & HP2).
    rewrite run_bind, Hrun. eexists _, w2. split_and!; [reflexivity|done| |].
    + assert (Hi : (i < length (slots st))%nat).
      { rewrite inv_len0. by eapply lookup_lt_Some. }
      split; simpl.
      * by rewrite length_insert.
      * intros i' y Hy. destruct (decide (i = i')) as [<-|Hne].
        -- rewrite list_lookup_insert_eq in Hy by done. injection Hy as <-.
           by exists wk, x.
        -- rewrite list_lookup_insert_ne in Hy by done. by apply inv_done0.
      * intros i' Hy. destruct (decide (i = i')) as [<-|Hne].
        { by rewrite list_lookup_insert_eq in Hy. }
        rewrite list_lookup_insert_ne in Hy by done.
        destruct (inv_todo0 i' Hy) as [?|(wk' & x' & Hx')]; [by left|].
        right. exists wk', x'. eapply elem_of_delete_other; [done|done|].
        congruence.
      * done.
      * intros wk' i' x' Hx'. apply inv_running0. by eapply elem_of_delete_sub.
      * intros wk' Hwk'. apply elem_of_app in Hwk' as [?|Hwk'].
        -- by apply inv_idle0.
        -- by apply list_elem_of_singleton in Hwk' as ->.
      * left. by destruct (idle st).
    + unfold measure. simpl. rewrite length_delete by by eexists. 
      destruct (running st); simpl in *; lia.
Qed.

Lemma pool_run_inv (fuel : nat) : ∀ (st : pool A B) (w : world),
  inv st → P w → (measure st ≤ fuel)%nat →
  ∃ st' w', pool_run fuel e fn st w = Some (st', w') ∧ P w'
            ∧ inv st' ∧ queue st' = [] ∧ running st' = [].
Proof.
  induction fuel as [|fuel IH]; intros st w Inv HP Hm.
  - exists st, w. unfold measure in Hm. split_and!; [done|done|done| |].
    + destruct (queue st); [done|simpl in Hm; lia].
    + destruct (running st); [done|simpl in Hm; lia].
  - simpl. rewrite run_bind.
    destruct (pool_step_inv st w Inv HP)
      as [(w' & -> & HP' & Hq & Hr)|(st' & w' & -> & HP' & Inv' & Hlt)].
    + by exists st, w'.
    + apply IH; [done|done|lia].
Qed.

(** Once nothing is queued or running, every slot holds its result. *)
Lemma pool_results (st : pool A B) :
  inv st → queue st = [] → running st = [] →
  ∃ ys, mapM id (slots st) = Some ys
        ∧ Forall2 (λ x y, ∃ wk, wk ∈ workers e ∧ y = g wk x) xs ys.
Proof.
  intros [Hlen Hdone Htodo _ _ _ _] Hq Hr.
  assert (Hall : ∀ i x, xs !! i = Some x →
            ∃ wk, wk ∈ workers e ∧ slots st !! i = Some (Some (g wk x))).
  { intros i x Hx.
    destruct (lookup_lt_is_Some_2 (slots st) i) as [[y|] Hy].
    - rewrite Hlen. by eapply lookup_lt_Some.
    - destruct (Hdone i y Hy) as (wk & x' & Hwk & Hx' & ->).
      exists wk. split; [done|]. congruence.
    - destruct (Htodo i Hy) as [[x' Hx']|(wk & x' & Hx')].
      + rewrite Hq in Hx'. by apply elem_of_nil in Hx'.
      + rewrite Hr in Hx'. by apply elem_of_nil in Hx'. }
  clear Hdone Htodo Hq Hr task_runs. revert Hlen Hall. generalize (slots st) as sl.
  induction xs as [|x xs' IH]; intros [|s sl] Hlen Hall; try done.
  - exists []. split; [done|constructor].
  - destruct (Hall 0%nat x eq_refl) as (wk & Hwk & [= ->]).
    destruct (IH sl) as (ys & Hys & HF).
    { simpl in Hlen. lia. }
    { intros i x' Hx'. apply (Hall (S i) x' Hx'). }
    exists (g wk x :: ys). split.
    + change (mapM id (Some (g wk x) :: sl)) with
        (y ← Some (g wk x); k ← mapM id sl; mret (y :: k)).
      simpl. by rewrite Hys.
    + constructor; [by exists wk|done].
Qed.

(** [executor.map] returns, and the results come back in submission
    order: the i-th result is the value of the i-th item's task, computed
    by one of the pool's workers. *)
Theorem executor_map_correct (w : world) :
  P w →
  ∃ ys w', executor_map e fn xs w = Some (ys, w') ∧ P w'
           ∧ Forall2 (λ x y, ∃ wk, wk ∈ workers e ∧ y = g wk x) xs ys.
Proof.
  intros HP. unfold executor_map. rewrite run_bind.
  destruct (pool_run_inv (2 * length xs) _ w pool_init_inv HP)
    as (st & w' & -> & HP' & Inv & Hq & Hr).
  { unfold measure. simpl. rewrite length_zip_with, length_seq. lia. }
  destruct (pool_results st Inv Hq Hr) as (ys & -> & HF).
  by exists ys, w'.
Qed.

End PoolCorrect.

(** ** Printing and reading integers *)

Lemma int_str (n : Z) : int (str n) = Some n.
Proof.
  unfold int, str.
  rewrite NilZero.isi.
  - simpl. by rewrite DecimalZ.of_to.
  - destruct n; simpl; try done.
    intros [= H]. by apply DecimalPos.Unsigned.to_uint_nonnil in H.
  - destruct n; simpl; try done.
    intros [= H]. by apply DecimalPos.Unsigned.to_uint_nonnil in H.
Qed.

Lemma not_numeric_inv (c : ascii) :
  not_numeric c →
  Forall (λ d, negb (Ascii.eqb d c) = true)
    ["-"; "0"; "1"; "2"; "3"; "4"; "5"; "6"; "7"; "8"; "9"]%char.
Proof.
  unfold not_numeric. cbn [lacks]. intros H.
  repeat (apply andb_prop in H as [? H]).
  repeat constructor; done.
Qed.

Lemma lacks_uint (c : ascii) (d : Decimal.uint) :
  not_numeric c → lacks c (NilEmpty.string_of_uint d) = true.
Proof.
  intros H%not_numeric_inv.
  repeat (apply Forall_cons in H as [? H]).
  induction d; cbn [lacks NilEmpty.string_of_uint]; [done|..];
    apply andb_true_intro; done.
Qed.

Lemma lacks_str (c : ascii) (n : Z) : not_numeric c → lacks c (str n) = true.
Proof.
  intros H. pose proof (lacks_uint c) as Hu.
  apply not_numeric_inv in H as H'.
  apply Forall_cons in H' as [Hm H']. apply Forall_cons in H' as [Hz _].
  assert (Hu0 : ∀ d, lacks c (NilZero.string_of_uint d) = true).
  { intros []; try (by apply Hu).
    change (NilZero.string_of_uint Decimal.Nil) with "0". cbn [lacks]. by rewrite Hz. }
  unfold str, NilZero.string_of_int.
  destruct (Z.to_int n) as [d|d]; [done|].
  cbn [lacks]. by rewrite Hm, Hu0.
Qed.

Lemma lacks_app (c : ascii) (a b : string) :
  lacks c (a +:+ b) = lacks c a && lacks c b.
Proof.
  induction a as [|x a IH]; [done|].
  change (String x a +:+ b) with (String x (a +:+ b)). cbn.
  rewrite IH. by rewrite andb_assoc.
Qed.

Lemma until_space_app (a r : string) :
  lacks " " a = true → until_space (a +:+ String " " r) = (a, String " " r).
Proof.
  induction a as [|c a IH]; [done|].
  change (String c a +:+ ?b) with (String c (a +:+ b)). cbn [lacks until_space].
  intros [Hc Ha]%andb_prop. apply negb_true_iff in Hc. rewrite Hc.
  by rewrite IH.
Qed.

Lemma until_space_end (a : string) :
  lacks " " a = true → until_space a = (a, "").
Proof.
  induction a as [|c a IH]; [done|]. cbn [lacks until_space].
  intros [Hc Ha]%andb_prop. apply negb_true_iff in Hc. rewrite Hc.
  by rewrite IH.
Qed.

Lemma append_String (x : ascii) (a b : string) :
  String x a +:+ b = String x (a +:+ b).
Proof. reflexivity. Qed.

Lemma append_assoc (a b c : string) : (a +:+ b) +:+ c = a +:+ b +:+ c.
Proof.
  induction a as [|x a IH]; [done|].
  rewrite !append_String. by f_equal.
Qed.

Lemma strip_prefix_app (p s : string) : strip_prefix p (p +:+ s) = Some s.
Proof.
  induction p as [|c p IH]; simpl; [by destruct s|].
  by rewrite Ascii.eqb_refl.
Qed.

Lemma until_space_eq (a r : string) :
  lacks " " a = true → until_space (a +:+ " = " +:+ r) = (a, " = " +:+ r).
Proof. apply until_space_app. Qed.

Lemma until_space_pid (a r : string) :
  lacks " " a = true → until_space (a +:+ " (PID: " +:+ r) = (a, " (PID: " +:+ r).
Proof. apply until_space_app. Qed.

Lemma parse_square_text (n : Z) : parse_result (square_text n) = Some (n, n * n).
Proof.
  unfold parse_result, square_text.
  rewrite strip_prefix_app. cbn [mbind option_bind].
  rewrite until_space_eq by by apply lacks_str.
  rewrite strip_prefix_app. cbn [mbind option_bind].
  rewrite until_space_end by by apply lacks_str.
  by rewrite !int_str.
Qed.

Lemma parse_hybrid_text (p n : Z) :
  parse_result (hybrid_text p n) = Some (n, n * n).
Proof.
  unfold parse_result, hybrid_text, square_text.
  rewrite !append_assoc.
  rewrite strip_prefix_app. cbn [mbind option_bind].
  rewrite until_space_eq by by apply lacks_str.
  rewrite strip_prefix_app. cbn [mbind option_bind].
  rewrite until_space_pid by by apply lacks_str.
  by rewrite !int_str.
Qed.

Lemma append_empty_r (a : string) : a +:+ "" = a.
Proof.
  induction a as [|x a IH]; [done|].
  rewrite append_String. by f_equal.
Qed.

Lemma lines_single (s : string) : lacks "010" s = true → lines s = [s].
Proof.
  induction s as [|c s IH]; [done|]. cbn [lacks lines].
  intros [Hc Hs]%andb_prop. apply negb_true_iff in Hc. rewrite Hc.
  by rewrite IH.
Qed.

Lemma lines_newline (s : string) : lines (String "010" s) = "" :: lines s.
Proof. reflexivity. Qed.

Lemma lines_newline_app (a b : string) :
  lines (String "010" a +:+ b) = "" :: lines (a +:+ b).
Proof. reflexivity. Qed.

Lemma not_numeric_newline : not_numeric "010".
Proof. reflexivity. Qed.

Lemma not_numeric_space : not_numeric " ".
Proof. reflexivity. Qed.

Lemma not_numeric_paren : not_numeric "(".
Proof. reflexivity. Qed.

#[local] Hint Resolve not_numeric_newline not_numeric_space not_numeric_paren : core.

Lemma lacks_square_text (c : ascii) (n : Z) :
  not_numeric c → lacks c "Square of  = " = true →
  lacks c (square_text n) = true.
Proof.
  intros Hc H. unfold square_text. rewrite !lacks_app, !lacks_str by done.
  cbn [lacks] in H |- *.
  repeat (apply andb_prop in H as [? H]).
  repeat (apply andb_true_intro; split); done.
Qed.

Lemma lacks_hybrid_text (p n : Z) : lacks "010" (hybrid_text p n) = true.
Proof.
  unfold hybrid_text. rewrite !lacks_app, lacks_square_text, lacks_str by done.
  done.
Qed.

(** ** Frames compose *)

Lemma quiet_refl (w : world) : quiet w w.
Proof. split; rewrite ?app_nil_r; auto. Qed.

Lemma frame_trans (w1 w2 w3 : world) out1 out2 r1 r2 c1 c2 :
  frame w1 w2 out1 r1 c1 → frame w2 w3 out2 r2 c2 →
  frame w1 w3 (out1 ++ out2) (r1 + r2) (c1 ++ c2).
Proof.
  intros [] []. split; try congruence.
  - rewrite app_assoc. congruence.
  - lia.
  - rewrite app_assoc. congruence.
Qed.

Lemma quiet_trans (w1 w2 w3 : world) : quiet w1 w2 → quiet w2 w3 → quiet w1 w3.
Proof. intros H1 H2. apply (frame_trans _ _ _ _ _ _ _ _ _ H1 H2). Qed.

Lemma quiet_sched_used (n : nat) (w0 w : world) :
  quiet w0 w → quiet w0 (set_sched_used n w).
Proof. intros []. by split. Qed.

Lemma quiet_sleeps (l : list Z) (w0 w : world) :
  quiet w0 w → quiet w0 (set_sleeps l w).
Proof. intros []. by split. Qed.

(** ** The workload function *)

Lemma square_fits_arg (n : Z) : square_fits n → str_fits n = true.
Proof.
  unfold square_fits, str_fits. rewrite !Z.ltb_lt, Z.abs_mul. intros H.
  pose proof (Z.abs_nonneg n). nia.
Qed.

Lemma int_max_str_bound_eq : int_max_str_bound = 10 ^ int_max_str_digits.
Proof. vm_compute. reflexivity. Qed.

Lemma square_fits_small (n : Z) : -100 ≤ n ≤ 100 → square_fits n.
Proof.
  intros H. unfold square_fits, str_fits. apply Z.ltb_lt.
  apply Z.lt_le_trans with (10 ^ 5).
  - rewrite Z.abs_mul. pose proof (Z.abs_nonneg n).
    assert (Z.abs n ≤ 100) by lia. change (10 ^ 5) with 100000. nia.
  - rewrite int_max_str_bound_eq.
    apply Z.pow_le_mono_r; [done|]. unfold int_max_str_digits. lia.
Qed.

Lemma numbers_fit : Forall square_fits numbers.
Proof. repeat constructor; apply square_fits_small; lia. Qed.

Lemma chunks_fit : Forall (Forall square_fits) Hybrid.chunks.
Proof.
  change Hybrid.chunks
    with [[1; 2; 3; 4; 5]; [6; 7; 8; 9; 10]; [11; 12; 13; 14]].
  repeat constructor; apply square_fits_small; lia.
Qed.

Lemma run_format_int (n : Z) (w : world) :
  format_int n w = if str_fits n then Some (str n, w) else None.
Proof. unfold format_int. by destruct (str_fits n). Qed.

Lemma run_square_number_cases (n : Z) (w : world) :
  square_number n w
  = if str_fits (n * n)
    then Some (square_text n, set_sleeps (sleeps w ++ [2]) w)
    else None.
Proof.
  unfold square_number, time_sleep. unfold mbind at 1, IO_bind at 1.
  unfold mbind at 1, IO_bind at 1. rewrite run_format_int.
  destruct (str_fits (n * n)) eqn:Hsq.
  - rewrite (square_fits_arg n Hsq).
    unfold mbind, IO_bind. by rewrite run_format_int, Hsq.
  - destruct (str_fits n); [|done].
    unfold mbind, IO_bind. by rewrite run_format_int, Hsq.
Qed.

Lemma run_hybrid_square_number_cases (n : Z) (w : world) :
  hybrid_square_number n w
  = if str_fits (n * n)
    then Some (hybrid_text (pid w) n, set_sleeps (sleeps w ++ [2]) w)
    else None.
Proof.
  unfold hybrid_square_number, time_sleep. unfold mbind at 1, IO_bind at 1.
  unfold mbind at 1, IO_bind at 1. rewrite run_format_int.
  destruct (str_fits (n * n)) eqn:Hsq.
  - rewrite (square_fits_arg n Hsq).
    unfold mbind, IO_bind. rewrite run_format_int, Hsq.
    unfold hybrid_text, square_text, os_getpid, mret, IO_ret.
    rewrite !append_assoc. reflexivity.
  - destruct (str_fits n); [|done].
    unfold mbind, IO_bind. by rewrite run_format_int, Hsq.
Qed.

Lemma square_number_raises (n : Z) (w : world) :
  str_fits (n * n) = false →
  square_number n w = None ∧ hybrid_square_number n w = None.
Proof.
  intros H.
  by rewrite run_square_number_cases, run_hybrid_square_number_cases, H.
Qed.

Lemma run_square_number (n : Z) (w : world) :
  square_fits n →
  square_number n w = Some (square_text n, set_sleeps (sleeps w ++ [2]) w).
Proof. intros H. by rewrite run_square_number_cases, H. Qed.

Lemma run_hybrid_square_number (n : Z) (w : world) :
  square_fits n →
  hybrid_square_number n w
  = Some (hybrid_text (pid w) n, set_sleeps (sleeps w ++ [2]) w).
Proof. intros H. by rewrite run_hybrid_square_number_cases, H. Qed.

Lemma Forall2_fmap_eq {X Y} (f : X → Y) (xs : list X) (ys : list Y) :
  Forall2 (λ x y, y = f x) xs ys → ys = f <$> xs.
Proof. induction 1 as [|x y xs ys -> _ ->]; by simpl. Qed.

(** ** Mapping the workload over a pool *)

Lemma map_square_number (e : Executor) (xs : list Z) (w : world) :
  Forall square_fits xs →
  workers e ≠ [] →
  ∃ w', executor_map e square_number xs w = Some (square_text <$> xs, w')
        ∧ quiet w w'.
Proof.
  intros Hfit He.
  destruct (executor_map_correct e square_number (λ _, square_text)
              (λ w1, quiet w w1) xs)
    with (w := w) as (ys & w' & Hrun & Hq & HF).
  - intros wk x w1 Hx Hq _.
    assert (square_fits x) as Hfx by (by eapply Forall_forall in Hfit).
    destruct e; simpl.
    + eexists. split; [by apply run_square_number|]. by apply quiet_sleeps.
    + eexists. unfold as_process. rewrite run_square_number by done.
      split; [reflexivity|]. destruct Hq. by split.
  - intros n w1. apply quiet_sched_used.
  - done.
  - apply quiet_refl.
  - exists w'. split; [|done]. rewrite Hrun. do 2 f_equal.
    apply Forall2_fmap_eq. eapply Forall2_impl; [done|].
    by intros x y (_ & _ & ->).
Qed.

Lemma run_process_chunk (chunk : list Z) (w : world) :
  Forall square_fits chunk →
  ∃ w', Hybrid.process_chunk chunk w = Some (hybrid_text (pid w) <$> chunk, w')
        ∧ quiet w w'.
Proof.
  intros Hfit. unfold Hybrid.process_chunk, ThreadPoolExecutor.
  destruct (executor_map_correct (Threads (Z.of_nat <$> seq 0 3))
              Hybrid.square_number (λ _, hybrid_text (pid w))
              (λ w1, quiet w w1) chunk)
    with (w := w) as (ys & w' & Hrun & Hq & HF).
  - intros wk x w1 Hx Hq _. simpl. eexists.
    unfold Hybrid.square_number.
    rewrite run_hybrid_square_number, (frame_pid _ _ _ _ _ Hq)
      by (by eapply Forall_forall in Hfit).
    split; [done|]. by apply quiet_sleeps.
  - intros n w1. apply quiet_sched_used.
  - done.
  - apply quiet_refl.
  - exists w'. split; [|done].
    rewrite run_bind, run_ret, run_bind, Hrun, run_ret. do 2 f_equal.
    apply Forall2_fmap_eq. eapply Forall2_impl; [done|].
    by intros x y (_ & _ & ->).
Qed.

Lemma map_process_chunk (pids : list Z) (cs : list (list Z)) (w : world) :
  Forall (Forall square_fits) cs →
  pids ≠ [] →
  ∃ batches w',
    executor_map (Processes pids) Hybrid.process_chunk cs w = Some (batches, w')
    ∧ quiet w w'
    ∧ Forall2 (λ chunk batch, ∃ p, p ∈ pids ∧ batch = hybrid_text p <$> chunk)
        cs batches.
Proof.
  intros Hfit Hp.
  destruct (executor_map_correct (Processes pids) Hybrid.process_chunk
              (λ p chunk, hybrid_text p <$> chunk) (λ w1, quiet w w1) cs)
    with (w := w) as (ys & w' & Hrun & Hq & HF).
  - intros wk chunk w1 Hchunk Hq _. simpl. unfold as_process.
    destruct (run_process_chunk chunk (set_pid wk w1)) as (w2 & -> & Hq2).
    { by eapply Forall_forall in Hfit. }
    eexists. split; [reflexivity|]. destruct Hq, Hq2. simpl in *.
    rewrite app_nil_r, Nat.add_0_r in *.
    split; simpl; rewrite ?app_nil_r, ?Nat.add_0_r; congruence.
  - intros n w1. apply quiet_sched_used.
  - done.
  - apply quiet_refl.
  - by exists ys, w'.
Qed.

(** ** Composing scripts *)

Lemma yields_ret {A} (a : A) (w : world) : yields (mret a) w a [] 0 [].
Proof. exists w. split; [done|apply quiet_refl]. Qed.

Lemma yields_bind {A B} (c : IO A) (k : A → IO B) (w : world) (a : A) (b : B)
    out1 out2 r1 r2 c1 c2 :
  yields c w a out1 r1 c1 →
  (∀ w1, frame w w1 out1 r1 c1 → yields (k a) w1 b out2 r2 c2) →
  yields (c ≫= k) w b (out1 ++ out2) (r1 + r2) (c1 ++ c2).
Proof.
  intros (w1 & Hc & F1) Hk. destruct (Hk w1 F1) as (w2 & Hk2 & F2).
  exists w2. split.
  - by rewrite (run_bind_Some _ _ _ _ _ Hc).
  - by eapply frame_trans.
Qed.

Lemma yields_eq {A} (c : IO A) (w : world) (a : A) out out' r r' cs cs' :
  yields c w a out r cs → out = out' → r = r' → cs = cs' →
  yields c w a out' r' cs'.
Proof. by intros H <- <- <-. Qed.

Lemma yields_eq_val {A} (c : IO A) (w : world) (a a' : A) out out' r r' cs cs' :
  yields c w a out r cs → a = a' → out = out' → r = r' → cs = cs' →
  yields c w a' out' r' cs'.
Proof. by intros H <- <- <- <-. Qed.

Lemma yields_print (s : string) (w : world) : yields (print s) w tt (lines s) 0 [].
Proof. eexists. split; [reflexivity|]. split; simpl; rewrite ?app_nil_r; auto. Qed.

Lemma yields_print_line (s : string) (w : world) :
  lacks "010" s = true → yields (print s) w tt [s] 0 [].
Proof. intros H. rewrite <- (lines_single s H). apply yields_print. Qed.

Lemma yields_time (w0 w : world) out r cs :
  frame w0 w out r cs →
  yields time_time w (clock w0 (clock_reads w0 + r)%nat) [] 1 [].
Proof.
  intros []. eexists. split.
  - unfold time_time. by rewrite frame_clock0, frame_reads0.
  - split; simpl; rewrite ?app_nil_r; auto. lia.
Qed.

Lemma yields_subprocess_run (argv : list string) (w0 w : world) out r cs :
  frame w0 w out r cs →
  yields (subprocess_run argv) w (spawn w0 argv) [] 0 [argv].
Proof.
  intros []. eexists. split.
  - unfold subprocess_run. by rewrite frame_spawn0.
  - split; simpl; rewrite ?app_nil_r; auto.
Qed.

Lemma yields_ThreadPoolExecutor (n : nat) (w : world) :
  yields (ThreadPoolExecutor n) w (Threads (Z.of_nat <$> seq 0 n)) [] 0 [].
Proof. apply yields_ret. Qed.

Lemma yields_ProcessPoolExecutor (n : nat) (w0 w : world) out r cs :
  frame w0 w out r cs →
  yields (ProcessPoolExecutor n) w (Processes (fork w0 <$> seq 0 n)) [] 0 [].
Proof.
  intros []. exists w. split.
  - unfold ProcessPoolExecutor. by rewrite frame_fork0.
  - apply quiet_refl.
Qed.

Lemma yields_map_square_number (e : Executor) (xs : list Z) (w : world) :
  Forall square_fits xs →
  workers e ≠ [] →
  yields (executor_map e square_number xs) w (square_text <$> xs) [] 0 [].
Proof. apply map_square_number. Qed.

Lemma yields_print_all (rs : list string) : ∀ w : world,
  Forall (λ r, lacks "010" r = true) rs →
  yields (for_each rs (λ r _, print r) tt) w tt rs 0 [].
Proof.
  induction rs as [|r rs IH]; intros w Hrs.
  - apply yields_ret.
  - apply Forall_cons in Hrs as [Hr Hrs]. cbn [for_each].
    eapply yields_eq.
    { eapply yields_bind; [by apply yields_print_line|].
      intros w1 _. by apply IH. }
    all: done.
Qed.

Lemma lacks_str_mul (c : ascii) (s : string) (n : nat) :
  lacks c s = true → lacks c (str_mul s n) = true.
Proof.
  intros H. induction n as [|n IH]; [done|].
  cbn [str_mul]. by rewrite lacks_app, H, IH.
Qed.

Lemma lacks_format_f (digits : nat) (x : float) :
  lacks "010" (format_f digits x) = true.
Proof.
  assert (Hfixed : ∀ (neg : bool) (q p : Z),
    lacks "010" ((if neg then "-" else "") +:+ str (q / p) +:+
      match digits with
      | O => ""
      | _ => "." +:+ zfill digits (str (q `mod` p))
      end) = true).
  { intros neg q p. rewrite !lacks_app, lacks_str by done.
    destruct neg, digits; try done; unfold zfill;
      by rewrite !lacks_app, lacks_str_mul, lacks_str. }
  destruct x as [s|[]| |s m e]; try done; apply Hfixed.
Qed.

Lemma lines_time_line (elapsed : float) :
  lines ("
[TIME] Total Time: " +:+ format_f 2 elapsed +:+ " seconds")
  = [""; "[TIME] Total Time: " +:+ format_f 2 elapsed +:+ " seconds"].
Proof.
  rewrite lines_newline_app, lines_single; [done|].
  by rewrite !lacks_app, lacks_format_f.
Qed.

Lemma yields_square_number (n : Z) (w : world) :
  square_fits n →
  yields (square_number n) w (square_text n) [] 0 [].
Proof.
  intros Hfit. eexists. split; [by apply run_square_number|].
  apply quiet_sleeps, quiet_refl.
Qed.

(** Run the next statement with lemma [lem]; name the world it leaves and
    keep one frame, from the initial world to that one. *)
Ltac step lem :=
  eapply yields_bind; [lem|];
  let w := fresh "w" in let F := fresh "F" in
  intros w F;
  try match goal with
  | F1 : frame ?a ?b _ _ _, F2 : frame ?b ?c _ _ _ |- _ =>
      let F' := fresh "F" in
      pose proof (frame_trans _ _ _ _ _ _ _ _ _ F1 F2) as F'; clear F1 F2
  end.

(** ** The four runners *)

Lemma lacks_newline_square_text (n : Z) : lacks "010" (square_text n) = true.
Proof. by apply lacks_square_text. Qed.

Lemma sequential_loop (xs : list Z) : ∀ (acc : list string) (w : world),
  Forall square_fits xs →
  yields (for_each xs (λ num results,
            result ← square_number num;
            let results := results ++ [result] in
            print result;; mret results) acc) w
    (acc ++ (square_text <$> xs)) (square_text <$> xs) 0 [].
Proof.
  induction xs as [|x xs IH]; intros acc w Hfit.
  - simpl. rewrite app_nil_r. apply yields_ret.
  - apply Forall_cons in Hfit as [Hx Hfit]. cbn [for_each].
    replace (acc ++ (square_text <$> x :: xs))
      with ((acc ++ [square_text x]) ++ (square_text <$> xs))
      by by rewrite <- app_assoc.
    eapply yields_eq.
    { step ltac:(eapply yields_bind; [by apply yields_square_number|];
                 intros w' _; cbv zeta; eapply yields_bind;
                 [apply yields_print_line, lacks_newline_square_text|];
                 intros w'' _; apply yields_ret).
      by apply IH. }
    all: done.
Qed.

Lemma sequential_main_spec (w : world) :
  yields Sequential.main w (square_text <$> numbers)
    (transcript "APPROACH 1: Sequential (No Parallelism)"
       (square_text <$> numbers) (float_sub (finished w) (started w))
       ["[TIP]  Each item waited 2 sec, all ran one-by-one"]) 2 [].
Proof.
  unfold Sequential.main. eapply yields_eq.
  { step ltac:(by apply yields_print_line).
    step ltac:(by apply yields_print_line).
    step ltac:(by apply yields_print_line).
    step ltac:(eapply yields_time; eassumption).
    step ltac:(apply sequential_loop, numbers_fit).
    step ltac:(eapply yields_time; eassumption).
    cbv zeta.
    step ltac:(apply yields_print).
    step ltac:(by apply yields_print_line).
    step ltac:(by apply yields_print_line).
    apply yields_ret. }
  - unfold transcript, started, finished. rewrite lines_time_line.
    cbn [Nat.add]. rewrite !Nat.add_0_r, Nat.add_1_r. reflexivity.
  - done.
  - done.
Qed.

Lemma Forall_lacks_square_text (xs : list Z) :
  Forall (λ r, lacks "010" r = true) (square_text <$> xs).
Proof.
  apply Forall_fmap, Forall_true. intros x. apply lacks_newline_square_text.
Qed.

Lemma threadpool_main_spec (w : world) :
  yields ThreadPool.main w (square_text <$> numbers)
    (transcript "APPROACH 2: ThreadPoolExecutor (14 threads)"
       (square_text <$> numbers) (float_sub (finished w) (started w))
       ["[TIP]  All 14 threads ran simultaneously, GIL released during sleep"])
    2 [].
Proof.
  unfold ThreadPool.main. eapply yields_eq.
  { step ltac:(by apply yields_print_line).
    step ltac:(by apply yields_print_line).
    step ltac:(by apply yields_print_line).
    step ltac:(eapply yields_time; eassumption).
    step ltac:(apply yields_ThreadPoolExecutor).
    step ltac:(apply yields_map_square_number; [apply numbers_fit|done]).
    step ltac:(apply yields_print_all, Forall_lacks_square_text).
    step ltac:(eapply yields_time; eassumption).
    cbv zeta.
    step ltac:(apply yields_print).
    step ltac:(by apply yields_print_line).
    step ltac:(by apply yields_print_line).
    apply yields_ret. }
  - unfold transcript, started, finished. rewrite lines_time_line.
    cbn [Nat.add]. rewrite !Nat.add_0_r, Nat.add_1_r. reflexivity.
  - done.
  - done.
Qed.

Lemma processpool_main_spec (w : world) :
  yields ProcessPool.main w (square_text <$> numbers)
    (transcript "APPROACH 3: ProcessPoolExecutor (3 processes)"
       (square_text <$> numbers) (float_sub (finished w) (started w))
       ["[TIP]  3 processes, ~5 batches of 2 sec each"])
    2 [].
Proof.
  unfold ProcessPool.main. eapply yields_eq.
  { step ltac:(by apply yields_print_line).
    step ltac:(by apply yields_print_line).
    step ltac:(by apply yields_print_line).
    step ltac:(eapply yields_time; eassumption).
    step ltac:(eapply yields_ProcessPoolExecutor; eassumption).
    step ltac:(apply yields_map_square_number; [apply numbers_fit|done]).
    step ltac:(apply yields_print_all, Forall_lacks_square_text).
    step ltac:(eapply yields_time; eassumption).
    cbv zeta.
    step ltac:(apply yields_print).
    step ltac:(by apply yields_print_line).
    step ltac:(by apply yields_print_line).
    apply yields_ret. }
  - unfold transcript, started, finished. rewrite lines_time_line.
    cbn [Nat.add]. rewrite !Nat.add_0_r, Nat.add_1_r. reflexivity.
  - done.
  - done.
Qed.

Lemma yields_step {A B} (c : IO A) (k : A → IO B) (w w1 : world) (a : A) (b : B)
    out1 out2 r1 r2 c1 c2 :
  c w = Some (a, w1) → frame w w1 out1 r1 c1 →
  yields (k a) w1 b out2 r2 c2 →
  yields (c ≫= k) w b (out1 ++ out2) (r1 + r2) (c1 ++ c2).
Proof.
  intros Hc F1 (w2 & Hk & F2). exists w2. split.
  - by rewrite (run_bind_Some _ _ _ _ _ Hc).
  - by eapply frame_trans.
Qed.

Lemma yields_print_batches (batches : list (list string)) : ∀ w : world,
  Forall (Forall (λ r, lacks "010" r = true)) batches →
  yields (for_each batches (λ batch _,
            for_each batch (λ result _, print result) tt) tt) w tt
    (concat batches) 0 [].
Proof.
  induction batches as [|batch batches IH]; intros w Hb.
  - apply yields_ret.
  - apply Forall_cons in Hb as [Hb Hbs]. cbn [for_each concat].
    eapply yields_eq.
    { eapply yields_bind; [by apply yields_print_all|].
      intros w1 _. by apply IH. }
    all: done.
Qed.

Lemma hybrid_batches_lack_newline (w : world) (batches : list (list string)) :
  hybrid_batches w batches →
  Forall (Forall (λ r, lacks "010" r = true)) batches.
Proof.
  unfold hybrid_batches. generalize Hybrid.chunks.
  induction batches as [|b bs IH]; intros cs H; [done|].
  inversion H as [|chunk b' cs' bs' (p & _ & ->) Hrest]; subst.
  constructor; [|by eapply IH].
  apply Forall_fmap, Forall_true. intros x. apply lacks_hybrid_text.
Qed.

Lemma hybrid_main_spec (w : world) :
  ∃ batches,
    hybrid_batches w batches ∧
    yields Hybrid.main w batches
      (transcript "APPROACH 4: Hybrid (3 Processes × 3 Threads)"
         (concat batches) (float_sub (finished w) (started w))
         ["[TIP]  3 processes x 3 threads = 9 parallel workers";
          "[TIP]  Notice different PIDs -- proves separate processes!"])
      2 [].
Proof.
  set (title := "APPROACH 4: Hybrid (3 Processes × 3 Threads)").
  destruct (yields_print_line (str_mul "=" 50) w) as (wa & Ha & Fa); [done|].
  destruct (yields_print_line title wa) as (wb & Hb & Fb); [done|].
  destruct (yields_print_line (str_mul "=" 50) wb) as (w1 & H1 & F1); [done|].
  pose proof (frame_trans _ _ _ _ _ _ _ _ _ Fa
                (frame_trans _ _ _ _ _ _ _ _ _ Fb F1)) as Fab.
  destruct (yields_time w w1 _ _ _ Fab) as (w2 & H2 & F2).
  pose proof (frame_trans _ _ _ _ _ _ _ _ _ Fab F2) as F12.
  destruct (yields_ProcessPoolExecutor 3 w w2 _ _ _ F12) as (w3 & H3 & F3).
  destruct (map_process_chunk (fork w <$> seq 0 3) Hybrid.chunks w3)
    as (batches & w4 & Hrun & Hq & HF); [apply chunks_fit|done|].
  pose proof (frame_trans _ _ _ _ _ _ _ _ _ F12
                (frame_trans _ _ _ _ _ _ _ _ _ F3 Hq)) as F.
  clear Fab F12.
  exists batches. split; [done|].
  unfold Hybrid.main. eapply yields_eq.
  { eapply yields_step; [exact Ha|exact Fa|].
    eapply yields_step; [exact Hb|exact Fb|].
    eapply yields_step; [exact H1|exact F1|].
    eapply yields_step; [exact H2|exact F2|].
    eapply yields_step; [exact H3|exact F3|].
    eapply yields_step; [exact Hrun|exact Hq|].
    clear Fa Fb F1 F2 F3 Hq.
    step ltac:(by eapply yields_print_batches, hybrid_batches_lack_newline).
    step ltac:(eapply yields_time; eassumption).
    cbv zeta.
    step ltac:(apply yields_print).
    step ltac:(by apply yields_print_line).
    step ltac:(by apply yields_print_line).
    step ltac:(by apply yields_print_line).
    apply yields_ret. }
  - unfold transcript, started, finished. rewrite lines_time_line.
    cbn [Nat.add]. rewrite !Nat.add_0_r, Nat.add_1_r. reflexivity.
  - done.
  - done.
Qed.

(** ** Floating-point facts the speedup column relies on *)

Lemma float_of_int_1 : float_of_int 1 = float_one.
Proof. reflexivity. Qed.

(** A finite non-zero float divided by itself is exactly [1.0]. *)
Lemma float_div_self (s : bool) (m : positive) (e : Z) :
  float_div (S754_finite s m e) (S754_finite s m e) = float_one.
Proof.
  unfold float_div, SFdiv, SFdiv_core_binary.
  rewrite !Z.sub_diag.
  change (Z.min (fexp prec emax 0) 0) with (-53).
  change (0 - -53) with 53.
  cbv beta iota zeta.
  rewrite Z.shiftl_mul_pow2 by done.
  assert (Hq : fst (Z.div_eucl (Z.pos m * 2 ^ 53) (Z.pos m)) = 2 ^ 53).
  { change (Z.div (Z.pos m * 2 ^ 53) (Z.pos m) = 2 ^ 53).
    rewrite Z.mul_comm. by apply Z.div_mul. }
  assert (Hr : snd (Z.div_eucl (Z.pos m * 2 ^ 53) (Z.pos m)) = 0).
  { change (Z.modulo (Z.pos m * 2 ^ 53) (Z.pos m) = 0).
    rewrite Z.mul_comm. by apply Z.mod_mul. }
  destruct (Z.div_eucl (Z.pos m * 2 ^ 53) (Z.pos m)) as [q r].
  simpl in Hq, Hr. subst q r.
  assert (Hloc : new_location (Z.pos m) 0 = loc_Exact).
  { unfold new_location. by destruct (Z.even (Z.pos m)). }
  rewrite Hloc. destruct s; reflexivity.
Qed.

(** ** The harness *)

Section HarnessProofs.
Import Harness Expected.
Variables (sys_executable SCRIPT_DIR : string).

Lemma speedup_total (seq_time : num) (elapsed : float) :
  speedup seq_time elapsed = Some (speedup_value seq_time elapsed).
Proof.
  unfold speedup, speedup_value.
  destruct (gt_zero (Float elapsed)) eqn:Hgt; [|done].
  unfold truediv. by destruct elapsed as [[]|[]| |[]].
Qed.

Lemma lacks_just (c : ascii) (n : nat) (s : string) :
  lacks c " " = true → lacks c s = true →
  lacks c (ljust n s) = true ∧ lacks c (rjust n s) = true.
Proof.
  intros Hsp Hs. unfold ljust, rjust.
  by rewrite !lacks_app, Hs, lacks_str_mul.
Qed.

Lemma lacks_table_row (label : string) (elapsed : float) (s : num) :
  lacks "010" label = true → lacks "010" (table_row label elapsed s) = true.
Proof.
  intros Hl. unfold table_row, format_num_f. rewrite !lacks_app.
  destruct (lacks_just "010" 35 label) as [-> _]; [done..|].
  destruct (lacks_just "010" 8 (format_f 2 elapsed)) as [_ ->];
    [done|apply lacks_format_f|].
  destruct (lacks_just "010" 8 (format_f 1 (to_float s))) as [_ ->];
    [done|apply lacks_format_f|].
  done.
Qed.

Lemma yields_print_row (seq_time : num) (label : string) (elapsed : float)
    (w : world) :
  lacks "010" label = true →
  yields (print_row seq_time label elapsed) w tt
    [table_row label elapsed (speedup_value seq_time elapsed)] 0 [].
Proof.
  intros Hl. unfold print_row. rewrite speedup_total.
  by apply yields_print_line, lacks_table_row.
Qed.

Lemma yields_print_if (b : bool) (s : string) (w : world) :
  yields (if b then print s else mret tt) w tt (if b then lines s else []) 0 [].
Proof. destruct b; [apply yields_print|apply yields_ret]. Qed.

Lemma yields_run_approach (script label : string)
    (timings : list (string * float)) (w0 w : world) out r cs :
  lacks "010" label = true →
  frame w0 w out r cs →
  yields (run_approach sys_executable SCRIPT_DIR script label timings) w
    (timings ++ [(label,
       float_sub (clock w0 (clock_reads w0 + (r + 1))%nat)
                 (clock w0 (clock_reads w0 + r)%nat))])
    (section_of label (spawn w0 (argv_of sys_executable SCRIPT_DIR script)))
    2 [argv_of sys_executable SCRIPT_DIR script].
Proof.
  intros Hl F0. unfold run_approach. eapply yields_eq_val.
  { step ltac:(apply yields_print).
    step ltac:(apply yields_print_line; rewrite lacks_app, Hl; done).
    step ltac:(by apply yields_print_line).
    step ltac:(eapply yields_time; eassumption).
    cbv zeta.
    step ltac:(eapply yields_subprocess_run; eassumption).
    step ltac:(eapply yields_time; eassumption).
    step ltac:(apply yields_print_if).
    step ltac:(apply yields_print_if).
    apply yields_ret. }
  - by rewrite !Nat.add_0_r.
  - unfold section_of, argv_of. rewrite lines_newline_app, lines_single by done.
    rewrite app_nil_r. reflexivity.
  - done.
  - done.
Qed.

Ltac join_frames :=
  repeat match goal with
  | F1 : frame ?a ?b _ _ _, F2 : frame ?b ?c _ _ _ |- _ =>
      let F' := fresh "F" in
      pose proof (frame_trans _ _ _ _ _ _ _ _ _ F1 F2) as F'; clear F1 F2
  end.

Lemma yields_run_all (w0 w : world) out cs :
  frame w0 w out 0 cs →
  yields (for_each approaches (λ '(script, label) timings,
            run_approach sys_executable SCRIPT_DIR script label timings) [])
    w (timings_of w0)
    (concat ((λ '(script, label),
                section_of label (spawn w0 (argv_of sys_executable SCRIPT_DIR script)))
             <$> approaches))
    8 ((λ '(script, _), argv_of sys_executable SCRIPT_DIR script) <$> approaches).
Proof.
  intros F0. cbn [for_each approaches]. eapply yields_eq_val.
  { eapply yields_bind; [by eapply yields_run_approach|]. intros. join_frames.
    eapply yields_bind; [by eapply yields_run_approach|]. intros. join_frames.
    eapply yields_bind; [by eapply yields_run_approach|]. intros. join_frames.
    eapply yields_bind; [by eapply yields_run_approach|]. intros.
    apply yields_ret. }
  - unfold timings_of, elapsed_of. cbn. by rewrite !Nat.add_0_r.
  - cbn [fmap list_fmap concat approaches].
    by rewrite !app_nil_r.
  - done.
  - done.
Qed.

Lemma yields_print_rows (seq_time : num) (timings : list (string * float)) :
  ∀ w : world,
  Forall (λ row, lacks "010" row.1 = true) timings →
  yields (for_each timings (λ '(label, elapsed) _,
            print_row seq_time label elapsed) tt) w tt
    ((λ '(label, elapsed),
        table_row label elapsed (speedup_value seq_time elapsed)) <$> timings)
    0 [].
Proof.
  induction timings as [|[label elapsed] timings IH]; intros w Hrows.
  - apply yields_ret.
  - apply Forall_cons in Hrows as [Hl Hrows]. cbn [for_each].
    eapply yields_eq.
    { eapply yields_bind; [by apply yields_print_row|].
      intros w1 _. by apply IH. }
    all: done.
Qed.

(** The harness always runs to the end: it launches the four runners in
    order, prints one section per runner and one table row per runner. *)
Lemma harness_main_spec (w : world) :
  yields (main sys_executable SCRIPT_DIR) w (timings_of w)
    (console_of sys_executable SCRIPT_DIR w) 8
    ((λ '(script, _), argv_of sys_executable SCRIPT_DIR script) <$> approaches).
Proof.
  unfold main. eapply yields_eq.
  { step ltac:(by apply yields_print_line).
    step ltac:(by apply yields_print_line).
    step ltac:(by apply yields_print_line).
    step ltac:(by apply yields_print_line).
    step ltac:(by apply yields_print_line).
    step ltac:(by eapply yields_run_all).
    step ltac:(apply yields_print).
    step ltac:(by apply yields_print_line).
    step ltac:(by apply yields_print_line).
    step ltac:(by apply yields_print_line).
    step ltac:(by apply yields_print_line).
    cbv zeta.
    step ltac:(apply yields_print_rows; by repeat constructor).
    step ltac:(by apply yields_print_line).
    step ltac:(by apply yields_print_line).
    step ltac:(by apply yields_print_line).
    apply yields_ret. }
  - unfold console_of, rows_of. reflexivity.
  - done.
  - done.
Qed.

End HarnessProofs.

(** ** What the strategies return *)

Lemma yields_value {A} (c : IO A) (w : world) (a : A) out r cs :
  yields c w a out r cs → fst <$> c w = Some a.
Proof. intros (w' & -> & _). done. Qed.

Lemma results_of_plain (s : strategy) (w : world) :
  s ≠ Run_hybrid → results_of s w = Some (square_text <$> numbers).
Proof.
  intros Hs. destruct s; cbn [results_of].
  - eapply yields_value, sequential_main_spec.
  - eapply yields_value, threadpool_main_spec.
  - eapply yields_value, processpool_main_spec.
  - by destruct Hs.
Qed.

Lemma results_of_hybrid (w : world) :
  ∃ batches, hybrid_batches w batches
             ∧ fst <$> Hybrid.main w = Some batches
             ∧ results_of Run_hybrid w = Some (concat batches).
Proof.
  destruct (hybrid_main_spec w) as (batches & Hb & w' & Hrun & _).
  exists batches. unfold results_of. rewrite Hrun. by split_and!.
Qed.

Lemma result_for_square_text (xs : list Z) :
  Forall2 result_for xs (square_text <$> xs).
Proof.
  apply Forall2_fmap_r, Forall_Forall2_diag, Forall_true.
  intros n. apply parse_square_text.
Qed.

Lemma result_for_hybrid_text (p : Z) (xs : list Z) :
  Forall2 result_for xs (hybrid_text p <$> xs).
Proof.
  apply Forall2_fmap_r, Forall_Forall2_diag, Forall_true.
  intros n. apply parse_hybrid_text.
Qed.

Lemma Forall2_concat_2 {X Y} (P : X → Y → Prop) (xss : list (list X))
    (yss : list (list Y)) :
  Forall2 (Forall2 P) xss yss → Forall2 P (concat xss) (concat yss).
Proof. induction 1; simpl; [constructor|by apply Forall2_app]. Qed.

Lemma hybrid_batches_result_for (w : world) (batches : list (list string)) :
  hybrid_batches w batches →
  Forall2 (Forall2 result_for) Hybrid.chunks batches.
Proof.
  unfold hybrid_batches. intros H. eapply Forall2_impl; [exact H|].
  intros chunk batch (p & _ & ->). apply result_for_hybrid_text.
Qed.

Lemma embedded_squares_result_for (xs : list Z) (rs : list string) :
  Forall2 result_for xs rs →
  embedded_squares rs = Some ((λ n, n * n) <$> xs).
Proof.
  intros H. apply mapM_Some, Forall2_fmap_r, Forall2_flip.
  eapply Forall2_impl; [exact H|].
  intros n r Hr. unfold flip. by rewrite Hr.
Qed.

Lemma concat_chunks : concat Hybrid.chunks = numbers.
Proof. reflexivity. Qed.

Lemma elem_of_numbers (n : Z) : n ∈ numbers ↔ 1 ≤ n ≤ 14.
Proof.
  unfold numbers. split.
  - rewrite !elem_of_cons, elem_of_nil. lia.
  - intros H. rewrite !elem_of_cons, elem_of_nil. lia.
Qed.

Lemma NoDup_squares : NoDup ((λ n, n * n) <$> numbers).
Proof. apply (bool_decide_unpack _). by vm_compute. Qed.

(** Every strategy returns one result per input, each in the place of its
    input. *)
Lemma results_in_input_order (s : strategy) (w : world) :
  ∃ rs, results_of s w = Some rs ∧ Forall2 result_for numbers rs.
Proof.
  destruct (decide (s = Run_hybrid)) as [->|Hs].
  - destruct (results_of_hybrid w) as (batches & Hb & _ & Hres).
    exists (concat batches). split; [done|].
    rewrite <- concat_chunks.
    by eapply Forall2_concat_2, hybrid_batches_result_for.
  - exists (square_text <$> numbers). split; [by apply results_of_plain|].
    apply result_for_square_text.
Qed.

Lemma strip_pid_app (s r : string) :
  lacks "(" s = true → strip_pid (s +:+ " (PID: " +:+ r) = s.
Proof.
  induction s as [|c s IH]; intros Hs.
  - reflexivity.
  - cbn [lacks] in Hs. apply andb_prop in Hs as [Hc Hs].
    rewrite append_String. cbn [strip_pid].
    assert (Hnone : strip_prefix " (PID: " (String c (s +:+ " (PID: " +:+ r)) = None).
    { cbn [strip_prefix]. destruct (Ascii.eqb " " c); [|done].
      destruct s as [|d s]; [done|].
      rewrite append_String. cbn [strip_prefix lacks] in Hs |- *.
      apply andb_prop in Hs as [Hd _]. apply negb_true_iff in Hd.
      by rewrite Ascii.eqb_sym, Hd. }
    rewrite Hnone. by rewrite IH.
Qed.

Lemma strip_pid_hybrid_text (p n : Z) :
  strip_pid (hybrid_text p n) = square_text n.
Proof.
  unfold hybrid_text. apply strip_pid_app.
  by apply lacks_square_text.
Qed.

Lemma strip_pid_batches (w : world) (batches : list (list string)) :
  hybrid_batches w batches →
  strip_pid <$> concat batches = square_text <$> numbers.
Proof.
  rewrite <- concat_chunks. unfold hybrid_batches. generalize Hybrid.chunks.
  induction batches as [|b bs IH]; intros cs H.
  - by inversion H.
  - inversion H as [|chunk b' cs' bs' (p & _ & ->) Hrest]; subst.
    cbn [concat]. rewrite !fmap_app, (IH _ Hrest). f_equal.
    rewrite <- list_fmap_compose. apply list_fmap_ext.
    intros _ n _. apply strip_pid_hybrid_text.
Qed.

(** ** Chunking *)

(** Cutting a list into chunks of any positive size loses nothing and
    keeps the order. *)
Lemma concat_range_from {A} (l : list A) (k : nat) :
  (0 < k)%nat → ∀ fuel start, (length l - start ≤ fuel)%nat →
  concat ((λ i, slice l i (i + k)) <$> range_from fuel start (length l) k)
  = drop start l.
Proof.
  intros Hk. induction fuel as [|fuel IH]; intros start Hfuel.
  - simpl. symmetry. apply drop_ge. lia.
  - cbn [range_from]. destruct (start <? length l)%nat eqn:Hlt.
    + apply Nat.ltb_lt in Hlt. cbn [fmap list_fmap concat].
      change (list_fmap nat (list A) ?f ?xs) with (f <$> xs).
      rewrite IH by lia. unfold slice.
      replace (start + k - start)%nat with k by lia.
      rewrite <- drop_drop. apply take_drop.
    + apply Nat.ltb_ge in Hlt. simpl. symmetry. apply drop_ge. lia.
Qed.

Lemma concat_chunked {A} (l : list A) (k : nat) :
  (0 < k)%nat → concat (chunked l k) = l.
Proof.
  intros Hk. unfold chunked, range.
  rewrite concat_range_from by (done || lia). apply drop_0.
Qed.

Lemma chunks_chunked : Hybrid.chunks = chunked numbers Hybrid.chunk_size.
Proof. reflexivity. Qed.

(** * The claims *)

(** C1. Whatever strategy runs the fixed input 1..14, and whatever the
    scheduler, the clock and the process ids do, the run returns fourteen
    result strings whose embedded squares are the squares of 1..14, each
    exactly once: none is missing and none is repeated. *)
Theorem each_square_exactly_once (s : strategy) (w : world) :
  ∃ rs sqs,
    results_of s w = Some rs ∧ embedded_squares rs = Some sqs
    ∧ length rs = 14%nat ∧ NoDup sqs
    ∧ ∀ q, q ∈ sqs ↔ ∃ n, 1 ≤ n ≤ 14 ∧ q = n * n.
Proof.
  destruct (results_in_input_order s w) as (rs & Hrs & HF).
  exists rs, ((λ n, n * n) <$> numbers). split_and!.
  - done.
  - by apply embedded_squares_result_for.
  - by rewrite <- (Forall2_length _ _ _ HF).
  - apply NoDup_squares.
  - intros q. rewrite list_elem_of_fmap. split.
    + intros (n & -> & Hn). exists n. by rewrite <- elem_of_numbers.
    + intros (n & Hn & ->). exists n. by rewrite elem_of_numbers.
Qed.

(** C2. The sequential, thread-pool and process-pool runners return their
    results in the order of the input 1..14: the i-th result is the line of
    the i-th input, for every schedule of the pool (the world [w] carries
    the scheduler's decisions). *)
Theorem pool_results_in_input_order (w : world) :
  Forall (λ s, ∃ rs, results_of s w = Some rs
                     ∧ Forall2 result_for numbers rs
                     ∧ rs = square_text <$> numbers)
    [Run_sequential; Run_threadpool; Run_processpool].
Proof.
  repeat constructor; (eexists; split_and!;
    [by apply results_of_plain|apply result_for_square_text|done]).
Qed.

(** C3. The hybrid runner returns one batch per chunk, in chunk order, and
    inside a batch the results follow the order of the chunk's items; the
    flattened sequence is the batches one after the other. *)
Theorem hybrid_grouped_by_chunk (w : world) :
  ∃ batches,
    fst <$> Hybrid.main w = Some batches
    ∧ results_of Run_hybrid w = Some (concat batches)
    ∧ Forall2 (Forall2 result_for) Hybrid.chunks batches.
Proof.
  destruct (results_of_hybrid w) as (batches & Hb & Hmain & Hres).
  exists batches. split_and!; [done..|].
  by eapply hybrid_batches_result_for.
Qed.

(** C10. The four strategies compute the same sequence: the thread-pool and
    process-pool results equal the sequential ones element for element,
    and so do the hybrid results once the process-id suffix is stripped;
    the hybrid results are therefore in the order of the whole input. *)
Theorem strategies_agree (w1 w2 w3 w4 : world) :
  ∃ rs hs,
    results_of Run_sequential w1 = Some rs
    ∧ results_of Run_threadpool w2 = Some rs
    ∧ results_of Run_processpool w3 = Some rs
    ∧ results_of Run_hybrid w4 = Some hs
    ∧ strip_pid <$> hs = rs
    ∧ Forall2 result_for numbers hs.
Proof.
  destruct (results_of_hybrid w4) as (batches & Hb & _ & Hres).
  exists (square_text <$> numbers), (concat batches). split_and!.
  - by apply results_of_plain.
  - by apply results_of_plain.
  - by apply results_of_plain.
  - done.
  - by eapply strip_pid_batches.
  - rewrite <- concat_chunks.
    by eapply Forall2_concat_2, hybrid_batches_result_for.
Qed.

(** C4. The hybrid runner cuts the fourteen inputs into chunks of
    [chunk_size] = 5 = ceil(14/3) items: three contiguous slices of sizes
    5, 5 and 4, no item in two of them, whose concatenation in order is the
    input again. *)
Theorem hybrid_chunks_partition :
  Hybrid.chunk_size = 5%nat
  ∧ Hybrid.chunk_size = ceil_div (length numbers) 3
  ∧ Hybrid.chunks
    = [slice numbers 0 5; slice numbers 5 10; slice numbers 10 15]
  ∧ Hybrid.chunks = [[1; 2; 3; 4; 5]; [6; 7; 8; 9; 10]; [11; 12; 13; 14]]
  ∧ length <$> Hybrid.chunks = [5; 5; 4]%nat
  ∧ concat Hybrid.chunks = numbers
  ∧ NoDup (concat Hybrid.chunks)
  ∧ ∀ i j a b x, Hybrid.chunks !! i = Some a → Hybrid.chunks !! j = Some b →
      i ≠ j → x ∈ a → x ∉ b.
Proof.
  split_and!; try reflexivity.
  - apply (bool_decide_unpack _). by vm_compute.
  - intros i j a b x Hi Hj Hne Ha Hb.
    change Hybrid.chunks
      with [[1; 2; 3; 4; 5]; [6; 7; 8; 9; 10]; [11; 12; 13; 14]] in Hi, Hj.
    destruct i as [|[|[|i]]], j as [|[|[|j]]]; simplify_eq/=;
      rewrite !elem_of_cons, elem_of_nil in Ha;
      rewrite !elem_of_cons, elem_of_nil in Hb; lia.
Qed.

(** C5, as amended.  For every integer [n] whose square has at most 4300
    decimal digits, the limit on turning an [int] into text, the workload
    function suspends once, for two seconds, and returns the text
    [Square of {n} = {n*n}], whose second number reads back as the square
    of the first; the hybrid variant appends [ (PID: {pid})] with the id
    of the process it runs in.  Apart from the recorded suspension the
    world is left as it was.  For a longer square neither variant
    returns: building the text raises [ValueError]. *)
Theorem workload_contract (n : Z) (w : world) :
  square_number n w
  = (if str_fits (n * n)
     then Some ("Square of " +:+ str n +:+ " = " +:+ str (n * n),
                set_sleeps (sleeps w ++ [2]) w)
     else None)
  ∧ parse_result ("Square of " +:+ str n +:+ " = " +:+ str (n * n))
    = Some (n, n * n)
  ∧ hybrid_square_number n w
    = (if str_fits (n * n)
       then Some (("Square of " +:+ str n +:+ " = " +:+ str (n * n))
                    +:+ " (PID: " +:+ str (pid w) +:+ ")",
                  set_sleeps (sleeps w ++ [2]) w)
       else None).
Proof.
  split_and!.
  - apply run_square_number_cases.
  - apply parse_square_text.
  - apply run_hybrid_square_number_cases.
Qed.

(** C5, as stated, fails: the square of [10 ^ 2150] has 4301 digits, and
    for this input, which itself is short enough to print, neither variant
    of the workload function returns its text. *)
Lemma huge_square_raises :
  str_fits (10 ^ 2150) = true
  ∧ square_number (10 ^ 2150) sample_world = None
  ∧ hybrid_square_number (10 ^ 2150) sample_world = None
  ∧ ¬ (∀ n w, ∃ r w', square_number n w = Some (r, w')).
Proof.
  assert (Hsq : str_fits (10 ^ 2150 * 10 ^ 2150) = false)
    by (vm_compute; reflexivity).
  destruct (square_number_raises (10 ^ 2150) sample_world Hsq)
    as [Hraise Hraise'].
  split_and!.
  - vm_compute. reflexivity.
  - exact Hraise.
  - exact Hraise'.
  - intros Hall. destruct (Hall (10 ^ 2150) sample_world) as (r & w' & Hr).
    rewrite Hraise in Hr. discriminate.
Qed.

(** How the speedup of one row is computed: the quotient for a positive
    time, the integer 0 for a zero time, and no exception either way. *)
Lemma speedup_cases (seq_time : num) (elapsed : float) :
  (gt_zero (Float elapsed) = true →
     Harness.speedup seq_time elapsed
     = Some (Float (float_div (to_float seq_time) elapsed)))
  ∧ (is_zero elapsed = true → Harness.speedup seq_time elapsed = Some (Int 0))
  ∧ Harness.speedup seq_time elapsed ≠ None.
Proof.
  split_and!.
  - intros Hgt. unfold Harness.speedup. rewrite Hgt.
    unfold truediv. by destruct elapsed as [[]|[]| |[]].
  - intros Hz. unfold Harness.speedup. by destruct elapsed as [[]|[]| |[]].
  - by rewrite speedup_total.
Qed.

Lemma table_row_text (seq_elapsed : float) (label : string) (elapsed : float) :
  Harness.table_row label elapsed
    (Expected.speedup_value (Float seq_elapsed) elapsed)
  = row_text seq_elapsed (label, elapsed).
Proof.
  unfold Harness.table_row, Expected.speedup_value, row_text, gt_zero,
    format_num_f.
  by destruct (float_lt (S754_zero false) elapsed).
Qed.

(** C6. For every world the harness runs to its end, dividing by no zero,
    and the lines it prints last are the table: one row per strategy, and
    in each row the speedup is the time measured for the first strategy,
    the sequential one, divided by the row's own time when that is
    positive, and 0 when it is not.  In the sequential row, whose time is
    a finite positive float, the speedup reads exactly 1.0; in a row whose
    time is zero it reads 0.0. *)
Theorem speedup_guarded (sys_executable SCRIPT_DIR : string) (w : world) :
  let seq_elapsed :=
    float_sub (clock w (clock_reads w + 1)%nat) (clock w (clock_reads w)) in
  ∃ rest w' before,
    let timings := ("Sequential (No Parallelism)", seq_elapsed) :: rest in
    Harness.main sys_executable SCRIPT_DIR w = Some (timings, w')
    ∧ timings.*1 = Harness.approaches.*2
    ∧ console w'
      = console w ++ before
        ++ (row_text seq_elapsed <$> timings)
        ++ [ str_mul "-" 60;
             "[TIP] Higher speedup = faster relative to sequential";
             "[WIN] For I/O-bound tasks, ThreadPool is the winner!" ]
    ∧ (is_finite seq_elapsed = true →
       float_lt (S754_zero false) seq_elapsed = true →
       float_div seq_elapsed seq_elapsed = float_one
       ∧ row_text seq_elapsed ("Sequential (No Parallelism)", seq_elapsed)
         = ljust 35 "Sequential (No Parallelism)" +:+ " "
           +:+ rjust 8 (format_f 2 seq_elapsed) +:+ "s " +:+ "     1.0x")
    ∧ (∀ label elapsed, is_zero elapsed = true →
       row_text seq_elapsed (label, elapsed)
       = ljust 35 label +:+ " " +:+ rjust 8 (format_f 2 elapsed) +:+ "s "
         +:+ "     0.0x").
Proof.
  intros seq_elapsed.
  destruct (harness_main_spec sys_executable SCRIPT_DIR w) as (w' & Hrun & F).
  pose proof (frame_console _ _ _ _ _ F) as Hc.
  assert (Htimings : Expected.timings_of w
    = ("Sequential (No Parallelism)", seq_elapsed)
      :: [ ("ThreadPool (14 threads)", Expected.elapsed_of w 1);
           ("ProcessPool (3 processes)", Expected.elapsed_of w 2);
           ("Hybrid (3 proc x 3 threads)", Expected.elapsed_of w 3) ]).
  { unfold Expected.timings_of, Expected.elapsed_of, seq_elapsed. cbn.
    rewrite !Nat.add_0_r. reflexivity. }
  eexists _, w', _. cbv zeta. split_and!.
  - rewrite Hrun, Htimings. reflexivity.
  - reflexivity.
  - rewrite Hc. unfold Expected.console_of.
    rewrite (app_assoc _ _ (_ ++ Expected.rows_of _ ++ _)).
    rewrite (app_assoc _ _ (Expected.rows_of _ ++ _)).
    do 2 f_equal. unfold Expected.rows_of. rewrite Htimings.
    cbn [Harness.sequential_time fmap list_fmap].
    by rewrite !table_row_text.
  - intros Hfin Hgt. unfold row_text. rewrite Hgt.
    destruct seq_elapsed as [[]|[]| |[] m e]; try done.
    by rewrite float_div_self.
  - intros label elapsed Hz. unfold row_text.
    by destruct elapsed as [[]|[]| |[]].
Qed.

(** C6 on the sample machine, where the sequential run takes 28 seconds:
    its time is finite and positive. *)
Lemma speedup_guarded_witness :
  let seq_elapsed :=
    float_sub (clock sample_world 1) (clock sample_world 0) in
  is_finite seq_elapsed = true
  ∧ float_lt (S754_zero false) seq_elapsed = true
  ∧ ∃ w' before,
      fst <$> Harness.main "python" "/drill" sample_world
      = Some [ ("Sequential (No Parallelism)", float_of_int 28);
               ("ThreadPool (14 threads)", float_of_int 2);
               ("ProcessPool (3 processes)", float_of_int 10);
               ("Hybrid (3 proc x 3 threads)", float_of_int 4) ]
      ∧ snd <$> Harness.main "python" "/drill" sample_world = Some w'
      ∧ console w'
        = before
          ++ [ "Sequential (No Parallelism)            28.00s      1.0x";
               "ThreadPool (14 threads)                 2.00s     14.0x";
               "ProcessPool (3 processes)              10.00s      2.8x";
               "Hybrid (3 proc x 3 threads)             4.00s      7.0x";
               "------------------------------------------------------------";
               "[TIP] Higher speedup = faster relative to sequential";
               "[WIN] For I/O-bound tasks, ThreadPool is the winner!" ].
Proof.
  intros seq_elapsed. split; [reflexivity|]. split; [reflexivity|].
  destruct (speedup_guarded "python" "/drill" sample_world)
    as (rest & w' & before & Hrun & Hlabels & Hc & _).
  assert (Ht : fst <$> Harness.main "python" "/drill" sample_world
    = Some [ ("Sequential (No Parallelism)", float_of_int 28);
             ("ThreadPool (14 threads)", float_of_int 2);
             ("ProcessPool (3 processes)", float_of_int 10);
             ("Hybrid (3 proc x 3 threads)", float_of_int 4) ])
    by (vm_compute; reflexivity).
  exists w', before. split; [exact Ht|]. split; [by rewrite Hrun|].
  rewrite Hrun in Ht. cbn [fmap option_fmap option_map fst] in Ht.
  injection Ht as ->.
  rewrite Hc. cbn [console sample_world app]. f_equal.
Defined.

(** C7. Whatever the four launched runners do, and in particular when one
    of them exits with a non-zero status, the harness runs to its end: it
    launches all four scripts in order, prints for each one its banner, its
    captured standard output and, when there is any, its captured standard
    error behind [Error: ], and then prints the comparison table with one
    timing row per strategy. *)
Theorem harness_tolerates_failures (sys_executable SCRIPT_DIR : string)
    (w : world) :
  ∃ timings w',
    Harness.main sys_executable SCRIPT_DIR w = Some (timings, w')
    ∧ launched w'
      = launched w ++ (Expected.argv_of sys_executable SCRIPT_DIR <$>
          ["01_sequential.py"; "02_threadpool.py"; "03_processpool.py";
           "04_hybrid.py"])
    ∧ timings.*1 = Harness.approaches.*2
    ∧ console w' = console w ++ Expected.console_of sys_executable SCRIPT_DIR w
    ∧ length (Expected.rows_of timings) = 4%nat
    ∧ Forall (λ '(script, label),
        let r := spawn w (Expected.argv_of sys_executable SCRIPT_DIR script) in
        Expected.section_of label r ⊆ console w'
        ∧ (truthy (stderr r) = true →
           lines ("Error: " +:+ stderr r) ⊆ console w'))
        Harness.approaches.
Proof.
  destruct (harness_main_spec sys_executable SCRIPT_DIR w) as (w' & Hrun & F).
  exists (Expected.timings_of w), w'.
  pose proof (frame_console _ _ _ _ _ F) as Hc.
  split_and!; [done|apply (frame_launched _ _ _ _ _ F)|done|done|done|].
  assert (Hsec : ∀ script label, (script, label) ∈ Harness.approaches →
    Expected.section_of label
      (spawn w (Expected.argv_of sys_executable SCRIPT_DIR script))
    ⊆ console w').
  { intros script label Hin l Hl. rewrite Hc. unfold Expected.console_of.
    rewrite !elem_of_app. right. right. left.
    apply list_elem_of_In, in_concat. eexists. split; [|by apply list_elem_of_In].
    apply list_elem_of_In.
    by apply (list_elem_of_fmap_2
      (λ '(script, label), Expected.section_of label
         (spawn w (Expected.argv_of sys_executable SCRIPT_DIR script)))
      _ (script, label)). }
  apply Forall_forall. intros [script label] Hin. cbv zeta. split.
  - by apply Hsec.
  - intros Herr l Hl. apply (Hsec script label Hin).
    unfold Expected.section_of. rewrite Herr, !elem_of_app. by right; right.
Qed.

Lemma yields_prints {A} (c : IO A) (w : world) (a : A) out r cs :
  yields c w a out r cs → prints c w a out.
Proof. intros (w' & Hrun & F). exists w'. by destruct F. Qed.

(** C8, as amended.  Each runner prints a three-line banner, one line per
    result ([Square of {n} = {n*n}], with [ (PID: {pid})] appended by the
    hybrid runner), a blank line, the line
    [[TIME] Total Time: {seconds:.2f} seconds], the line
    [[INFO] Items processed: 14], and then one closing [[TIP]] line (two
    for the hybrid runner). *)
Theorem runner_transcripts (w : world) :
  let elapsed := float_sub (finished w) (started w) in
  prints Sequential.main w (square_text <$> numbers)
    (transcript "APPROACH 1: Sequential (No Parallelism)"
       (square_text <$> numbers) elapsed
       ["[TIP]  Each item waited 2 sec, all ran one-by-one"])
  ∧ prints ThreadPool.main w (square_text <$> numbers)
      (transcript "APPROACH 2: ThreadPoolExecutor (14 threads)"
         (square_text <$> numbers) elapsed
         ["[TIP]  All 14 threads ran simultaneously, GIL released during sleep"])
  ∧ prints ProcessPool.main w (square_text <$> numbers)
      (transcript "APPROACH 3: ProcessPoolExecutor (3 processes)"
         (square_text <$> numbers) elapsed
         ["[TIP]  3 processes, ~5 batches of 2 sec each"])
  ∧ ∃ batches,
      hybrid_batches w batches
      ∧ prints Hybrid.main w batches
          (transcript "APPROACH 4: Hybrid (3 Processes × 3 Threads)"
             (concat batches) elapsed
             ["[TIP]  3 processes x 3 threads = 9 parallel workers";
              "[TIP]  Notice different PIDs -- proves separate processes!"]).
Proof.
  cbv zeta. split_and!.
  - eapply yields_prints, sequential_main_spec.
  - eapply yields_prints, threadpool_main_spec.
  - eapply yields_prints, processpool_main_spec.
  - destruct (hybrid_main_spec w) as (batches & Hb & Hy).
    exists batches. split; [done|]. by eapply yields_prints.
Qed.

(** C8, as stated, fails: the sequential runner's output on the sample
    machine does not end with a [Total Time: ...] line followed by the
    items-processed line. *)
Lemma claimed_format_fails :
  prints Sequential.main sample_world (square_text <$> numbers) sample_transcript
  ∧ ¬ claimed_format false sample_transcript.
Proof.
  split.
  - assert (Hout : transcript "APPROACH 1: Sequential (No Parallelism)"
             (square_text <$> numbers)
             (float_sub (finished sample_world) (started sample_world))
             ["[TIP]  Each item waited 2 sec, all ran one-by-one"]
           = sample_transcript) by (vm_compute; reflexivity).
    rewrite <- Hout. eapply yields_prints, sequential_main_spec.
  - intros (banner & results & seconds & count_line & Heq & _).
    apply (f_equal (@rev string)) in Heq.
    rewrite !rev_app_distr in Heq. simpl in Heq.
    injection Heq. intros. discriminate.
Qed.

(** ** Sample runs *)

(** Inside the pool the third item may complete before the second: after
    five moves on the sample machine slot 2 is filled and slot 1 is not.
    The finished [map] still returns the results in input order. *)
Example completion_out_of_order :
  slots <$> (fst <$> pool_run 5 (Threads [0; 1; 2]) square_number
               (mkPool [0; 1; 2] (zip (seq 0 4) [1; 2; 3; 4]) []
                  (replicate 4 None)) sample_world)
  = Some [Some "Square of 1 = 1"; None; Some "Square of 3 = 9"; None]
  ∧ fst <$> executor_map (Threads [0; 1; 2]) square_number [1; 2; 3; 4]
              sample_world
    = Some ["Square of 1 = 1"; "Square of 2 = 4"; "Square of 3 = 9";
            "Square of 4 = 16"].
Proof. split; vm_compute; reflexivity. Qed.

(** A harness run in which the thread-pool runner fails with exit status 1:
    its standard error is shown, the other runners still run and the table
    has its four rows. *)
Example harness_sample_run :
  console <$> (snd <$> Harness.main "python" "/drill" sample_world)
  = Some
      [ "MULTITHREADING & MULTIPROCESSING DRILL";
        "============================================================";
        "Task: Compute square of 14 numbers, each with 2 sec I/O wait";
        "Sequential expected: 14 x 2 = 28 seconds";
        "============================================================";
        "";
        "____________________________________________________________";
        ">> Running: Sequential (No Parallelism)";
        "____________________________________________________________";
        "ok"; "";
        "";
        "____________________________________________________________";
        ">> Running: ThreadPool (14 threads)";
        "____________________________________________________________";
        "Error: Traceback: boom"; "";
        "";
        "____________________________________________________________";
        ">> Running: ProcessPool (3 processes)";
        "____________________________________________________________";
        "ok"; "";
        "";
        "____________________________________________________________";
        ">> Running: Hybrid (3 proc x 3 threads)";
        "____________________________________________________________";
        "ok"; "";
        "";
        "============================================================";
        "FINAL COMPARISON";
        "============================================================";
        "Approach                                  Time    Speedup";
        "------------------------------------------------------------";
        "Sequential (No Parallelism)            28.00s      1.0x";
        "ThreadPool (14 threads)                 2.00s     14.0x";
        "ProcessPool (3 processes)              10.00s      2.8x";
        "Hybrid (3 proc x 3 threads)             4.00s      7.0x";
        "------------------------------------------------------------";
        "[TIP] Higher speedup = faster relative to sequential";
        "[WIN] For I/O-bound tasks, ThreadPool is the winner!" ].
Proof. vm_compute. reflexivity. Qed.

(** * Further properties of the runners *)

(** ** Every task runs once *)

Section PoolCount.
Context {A B : Type}.
Variables (e : Executor) (fn : A → IO B).
(** [P k w]: in the world [w], [k] tasks have run so far; [Q x]: the task
    of item [x] returns. *)
Variable P : nat → world → Prop.
Variable Q : A → Prop.
Hypothesis task_counts : ∀ wk x w k, Q x → P k w →
  ∃ y w', enter e wk (fn x) w = Some (y, w') ∧ P (S k) w'.
Hypothesis sched_uncounted : ∀ k n w, P k w → P k (set_sched_used n w).

(** Every item waiting or in progress is one whose task returns. *)
Let jobs_return (st : pool A B) : Prop :=
  (∀ i x, (i, x) ∈ queue st → Q x)
  ∧ (∀ wk i x, (wk, (i, x)) ∈ running st → Q x).

Lemma pool_step_count (st : pool A B) (w : world) (k : nat) :
  idle st ≠ [] ∨ running st ≠ [] → jobs_return st → P k w →
  (∃ w', pool_step e fn st w = Some (None, w') ∧ P k w'
         ∧ queue st = [] ∧ running st = []) ∨
  (∃ st' w' k', pool_step e fn st w = Some (Some st', w') ∧ P k' w'
         ∧ (idle st' ≠ [] ∨ running st' ≠ [])
         ∧ jobs_return st'
         ∧ (measure st' < measure st)%nat
         ∧ (k' + length (queue st') + length (running st')
            = k + length (queue st) + length (running st))%nat).
Proof.
  intros Hlive [Hqueue Hrunning] HP. unfold pool_step.
  destruct (startable st + length (running st))%nat as [|n] eqn:Hn.
  { left. exists w. split_and!; [done|done| |].
    - unfold startable in Hn. destruct (queue st); [done|].
      destruct (running st); [|simpl in Hn; lia].
      destruct (idle st); [|simpl in Hn; lia]. by destruct Hlive.
    - destruct (running st); [done|simpl in Hn; lia]. }
  right. rewrite run_bind. unfold choose at 1.
  set (j := (sched w (sched_used w) `mod` S n)%nat).
  assert (Hj : (j < S n)%nat) by (apply Nat.mod_upper_bound; lia).
  set (w1 := set_sched_used (S (sched_used w)) w).
  assert (HP1 : P k w1) by by apply sched_uncounted.
  destruct (j <? startable st)%nat eqn:Hjs.
  - apply Nat.ltb_lt in Hjs. unfold startable in Hjs, Hn |- *.
    destruct (queue st) as [|job q] eqn:Hq; [lia|].
    destruct (lookup_lt_is_Some_2 (idle st) j Hjs) as [wk ->].
    eexists _, w1, k. split_and!; [reflexivity|done| | | |].
    + right. simpl. by destruct (running st).
    + split; simpl.
      * intros i x Hx. apply (Hqueue i x). by right.
      * intros wk' i x Hx. apply elem_of_app in Hx as [Hx|Hx].
        -- by eapply Hrunning.
        -- apply list_elem_of_singleton in Hx as [= -> <-].
           eapply Hqueue. by left.
    + unfold measure. simpl. rewrite Hq, length_app. simpl. lia.
    + simpl. rewrite length_app. simpl. lia.
  - apply Nat.ltb_ge in Hjs.
    assert (Hlt : (j - startable st < length (running st))%nat) by lia.
    destruct (lookup_lt_is_Some_2 _ _ Hlt) as [[wk [i x]] Hr].
    rewrite Hr.
    assert (HQ : Q x).
    { eapply Hrunning. by eapply list_elem_of_lookup_2. }
    destruct (task_counts wk x w1 k HQ HP1) as (y & w2 & Hrun & HP2).
    rewrite run_bind, Hrun. eexists _, w2, (S k).
    split_and!; [reflexivity|done| | | |].
    + left. simpl. by destruct (idle st).
    + split; simpl; [done|].
      intros wk' i' x' Hx'. eapply Hrunning. by eapply elem_of_delete_sub.
    + unfold measure. simpl. rewrite length_delete by by eexists.
      destruct (running st); simpl in *; lia.
    + simpl. rewrite length_delete by by eexists.
      destruct (running st); simpl in *; lia.
Qed.

Lemma pool_run_count (fuel : nat) : ∀ (st : pool A B) (w : world) (k : nat),
  idle st ≠ [] ∨ running st ≠ [] → jobs_return st → P k w →
  (measure st ≤ fuel)%nat →
  ∃ st' w', pool_run fuel e fn st w = Some (st', w')
            ∧ P (k + length (queue st) + length (running st)) w'.
Proof.
  induction fuel as [|fuel IH]; intros st w k Hlive Hjobs HP Hm.
  - exists st, w. split; [done|]. unfold measure in Hm.
    destruct (queue st); [|simpl in Hm; lia].
    destruct (running st); [|simpl in Hm; lia].
    simpl. by rewrite !Nat.add_0_r.
  - simpl. rewrite run_bind.
    destruct (pool_step_count st w k Hlive Hjobs HP)
      as [(w' & -> & HP' & Hq & Hr)
         |(st' & w' & k' & -> & HP' & Hlive' & Hjobs' & Hlt & Hk)].
    + exists st, w'. split; [done|]. rewrite Hq, Hr. simpl.
      by rewrite !Nat.add_0_r.
    + destruct (IH st' w' k' Hlive' Hjobs' HP')
        as (st'' & w'' & Hrun & HP''); [lia|].
      exists st'', w''. split; [done|]. by rewrite <- Hk.
Qed.

(** When [map] returns, as many tasks have run as items were submitted. *)
Lemma executor_map_count (xs : list A) (w w' : world) (ys : list B) :
  Forall Q xs → workers e ≠ [] → P 0 w →
  executor_map e fn xs w = Some (ys, w') → P (length xs) w'.
Proof.
  intros HQ He HP. unfold executor_map. rewrite run_bind.
  destruct (pool_run_count (2 * length xs)
              (mkPool (workers e) (zip (seq 0 (length xs)) xs) []
                 (replicate (length xs) None)) w 0)
    as (st & w1 & -> & HP1).
  - by left.
  - split; simpl.
    + intros i x Hx. apply list_elem_of_lookup in Hx as [j Hj].
      apply lookup_zip_with_Some in Hj as (i' & x' & [= <- <-] & _ & Hx).
      eapply Forall_forall; [done|]. by eapply list_elem_of_lookup_2.
    + intros wk i x Hx. by apply elem_of_nil in Hx.
  - done.
  - unfold measure. simpl. rewrite length_zip_with, length_seq. lia.
  - simpl in HP1. rewrite length_zip_with, length_seq, Nat.min_id, Nat.add_0_r in HP1.
    destruct (mapM id (slots st)); [|done]. by intros [= _ <-].
Qed.

End PoolCount.

(** ** The strategies on any input *)

Lemma run_loop_results (xs : list Z) (w : world) :
  Forall square_fits xs →
  ∃ w', loop_results xs w = Some (square_text <$> xs, w')
        ∧ console w' = console w ++ (square_text <$> xs).
Proof.
  intros Hfit. destruct (sequential_loop xs [] w Hfit) as (w' & Hrun & F).
  exists w'. split; [done|]. apply (frame_console _ _ _ _ _ F).
Qed.

Lemma run_thread_map (max_workers : nat) (xs : list Z) (w : world) :
  Forall square_fits xs →
  (0 < max_workers)%nat →
  ∃ w', thread_map max_workers xs w = Some (square_text <$> xs, w')
        ∧ console w' = console w.
Proof.
  intros Hfit Hn.
  unfold thread_map, ThreadPoolExecutor. rewrite run_bind, run_ret.
  destruct (map_square_number (Threads (Z.of_nat <$> seq 0 max_workers)) xs w)
    as (w' & Hrun & F); [done| |].
  { destruct max_workers; [lia|done]. }
  exists w'. split; [done|].
  rewrite (frame_console _ _ _ _ _ F). apply app_nil_r.
Qed.

Lemma run_process_map (max_workers : nat) (xs : list Z) (w : world) :
  Forall square_fits xs →
  (0 < max_workers)%nat →
  ∃ w', process_map max_workers xs w = Some (square_text <$> xs, w')
        ∧ console w' = console w.
Proof.
  intros Hfit Hn. unfold process_map. rewrite run_bind.
  unfold ProcessPoolExecutor at 1.
  destruct (map_square_number (Processes (fork w <$> seq 0 max_workers)) xs w)
    as (w' & Hrun & F); [done| |].
  { destruct max_workers; [lia|done]. }
  exists w'. split; [done|].
  rewrite (frame_console _ _ _ _ _ F). apply app_nil_r.
Qed.

(** X1. For any list of integers whose squares have at most 4300 digits
    (empty, repeated or negative items included) and any pool of at least
    one worker, mapping the workload over a thread pool or a process pool
    returns exactly what the sequential loop returns: the result line of
    every item, in input order, under every schedule.  The pools print
    nothing; the loop, when it ends, has printed every line, in order. *)
Theorem pool_map_agrees_with_loop (max_workers : nat) (xs : list Z)
    (w1 w2 w3 : world) :
  Forall square_fits xs →
  (0 < max_workers)%nat →
  ∃ rs w1' w2' w3',
    loop_results xs w1 = Some (rs, w1')
    ∧ thread_map max_workers xs w2 = Some (rs, w2')
    ∧ process_map max_workers xs w3 = Some (rs, w3')
    ∧ Forall2 result_for xs rs
    ∧ console w1' = console w1 ++ rs
    ∧ console w2' = console w2 ∧ console w3' = console w3.
Proof.
  intros Hfit Hn.
  destruct (run_loop_results xs w1 Hfit) as (w1' & H1 & C1).
  destruct (run_thread_map max_workers xs w2 Hfit Hn) as (w2' & H2 & C2).
  destruct (run_process_map max_workers xs w3 Hfit Hn) as (w3' & H3 & C3).
  exists (square_text <$> xs), w1', w2', w3'.
  split_and!; try done. apply result_for_square_text.
Qed.

Lemma sample_items_fit : Forall square_fits [3; -4; 3].
Proof. repeat constructor; apply square_fits_small; lia. Qed.

Lemma pool_map_agrees_with_loop_witness :
  ∃ rs w1' w2' w3',
    loop_results [3; -4; 3] sample_world = Some (rs, w1')
    ∧ thread_map 2 [3; -4; 3] sample_world = Some (rs, w2')
    ∧ process_map 2 [3; -4; 3] sample_world = Some (rs, w3')
    ∧ Forall2 result_for [3; -4; 3] rs
    ∧ console w1' = console sample_world ++ rs
    ∧ console w2' = console sample_world
    ∧ console w3' = console sample_world.
Proof.
  apply (pool_map_agrees_with_loop 2 [3; -4; 3] sample_world sample_world
           sample_world).
  - apply sample_items_fit.
  - lia.
Defined.

Lemma sleeps_square_number (e : Executor) (wk : Z) (x : Z) (w0 w : world) (k : nat) :
  square_fits x →
  sleeps w = sleeps w0 ++ replicate k 2 →
  ∃ y w', enter e wk (square_number x) w = Some (y, w')
          ∧ sleeps w' = sleeps w0 ++ replicate (S k) 2.
Proof.
  intros Hfit Hs.
  assert (Hend : (sleeps w0 ++ replicate k 2) ++ [2]
                 = sleeps w0 ++ replicate (S k) 2).
  { rewrite <- app_assoc. f_equal. symmetry. apply replicate_S_end. }
  destruct e; simpl.
  - eexists _, _. split; [by apply run_square_number|]. simpl. by rewrite Hs.
  - eexists _, _. unfold as_process. rewrite run_square_number by done.
    split; [reflexivity|]. simpl. by rewrite Hs.
Qed.

Lemma sleeps_executor_map (e : Executor) (xs : list Z) (w w' : world)
    (ys : list string) :
  Forall square_fits xs →
  workers e ≠ [] →
  executor_map e square_number xs w = Some (ys, w') →
  sleeps w' = sleeps w ++ replicate (length xs) 2.
Proof.
  intros Hfit He Hrun.
  eapply (executor_map_count e square_number
            (λ k w1, sleeps w1 = sleeps w ++ replicate k 2) square_fits);
    [| |done|done| |done].
  - intros wk x w1 k. apply sleeps_square_number.
  - done.
  - simpl. by rewrite app_nil_r.
Qed.

Lemma sleeps_loop (xs : list Z) : ∀ (acc : list string) (w : world),
  Forall square_fits xs →
  ∃ w', for_each xs (λ num results,
          result ← square_number num;
          let results := results ++ [result] in
          print result;; mret results) acc w
        = Some (acc ++ (square_text <$> xs), w')
        ∧ sleeps w' = sleeps w ++ replicate (length xs) 2.
Proof.
  induction xs as [|x xs IH]; intros acc w Hfit.
  - exists w. simpl. by rewrite !app_nil_r.
  - apply Forall_cons in Hfit as [Hx Hfit].
    cbn [for_each]. rewrite run_bind.
    rewrite (run_bind (square_number x)), run_square_number by done.
    cbv zeta. rewrite run_bind. unfold print at 1. rewrite run_ret.
    destruct (IH (acc ++ [square_text x])
                (set_console (console (set_sleeps (sleeps w ++ [2]) w)
                              ++ lines (square_text x))
                   (set_sleeps (sleeps w ++ [2]) w)) Hfit)
      as (w' & Hrun & Hs).
    exists w'. split.
    + rewrite <- app_assoc in Hrun. exact Hrun.
    + rewrite Hs. simpl. by rewrite <- app_assoc.
Qed.

(** X2. For any list of integers whose squares have at most 4300 digits,
    under every schedule, the sequential loop, a thread pool and a process
    pool of at least one worker each return the line of every item, in
    input order, and have by then performed exactly as many two-second
    suspensions as the input has items: one run of the workload per item,
    no run more and none fewer. *)
Theorem each_item_runs_once (max_workers : nat) (xs : list Z) (w : world) :
  Forall square_fits xs →
  (0 < max_workers)%nat →
  (∃ w', loop_results xs w = Some (square_text <$> xs, w')
         ∧ sleeps w' = sleeps w ++ replicate (length xs) 2)
  ∧ (∃ w', thread_map max_workers xs w = Some (square_text <$> xs, w')
           ∧ sleeps w' = sleeps w ++ replicate (length xs) 2)
  ∧ (∃ w', process_map max_workers xs w = Some (square_text <$> xs, w')
           ∧ sleeps w' = sleeps w ++ replicate (length xs) 2).
Proof.
  intros Hfit Hn. split_and!.
  - by apply (sleeps_loop xs []).
  - destruct (run_thread_map max_workers xs w Hfit Hn) as (w' & Hrun & _).
    exists w'. split; [done|].
    unfold thread_map, ThreadPoolExecutor in Hrun.
    rewrite run_bind, run_ret in Hrun.
    eapply sleeps_executor_map; [done| |done].
    destruct max_workers; [lia|done].
  - destruct (run_process_map max_workers xs w Hfit Hn) as (w' & Hrun & _).
    exists w'. split; [done|].
    unfold process_map in Hrun. rewrite run_bind in Hrun.
    unfold ProcessPoolExecutor at 1 in Hrun.
    eapply sleeps_executor_map; [done| |done].
    destruct max_workers; [lia|done].
Qed.

Lemma each_item_runs_once_witness :
  (∃ w', loop_results [3; -4; 3] sample_world
         = Some (square_text <$> [3; -4; 3], w')
         ∧ sleeps w' = sleeps sample_world ++ replicate 3 2)
  ∧ (∃ w', thread_map 2 [3; -4; 3] sample_world
           = Some (square_text <$> [3; -4; 3], w')
           ∧ sleeps w' = sleeps sample_world ++ replicate 3 2)
  ∧ (∃ w', process_map 2 [3; -4; 3] sample_world
           = Some (square_text <$> [3; -4; 3], w')
           ∧ sleeps w' = sleeps sample_world ++ replicate 3 2).
Proof.
  apply (each_item_runs_once 2 [3; -4; 3] sample_world).
  - apply sample_items_fit.
  - lia.
Defined.

(** X3. In whatever process it is called, for a chunk of integers whose
    squares have at most 4300 digits, [process_chunk] returns one line per
    item of its chunk, in the chunk's order, every line carrying the id of
    that calling process; an empty chunk gives an empty list.  It prints
    nothing, leaves the process id as it was, and each line reads back as
    its item and the item's square. *)
Theorem process_chunk_any_chunk (chunk : list Z) (w : world) :
  Forall square_fits chunk →
  ∃ results w',
    Hybrid.process_chunk chunk w = Some (results, w')
    ∧ results
      = (λ n, "Square of " +:+ str n +:+ " = " +:+ str (n * n)
                +:+ " (PID: " +:+ str (pid w) +:+ ")") <$> chunk
    ∧ Forall2 result_for chunk results
    ∧ strip_pid <$> results = square_text <$> chunk
    ∧ console w' = console w ∧ pid w' = pid w.
Proof.
  intros Hfit. destruct (run_process_chunk chunk w Hfit) as (w' & Hrun & F).
  exists (hybrid_text (pid w) <$> chunk), w'. split_and!.
  - done.
  - apply list_fmap_ext. intros _ n _. unfold hybrid_text, square_text.
    by rewrite !append_assoc.
  - apply result_for_hybrid_text.
  - rewrite <- list_fmap_compose. apply list_fmap_ext.
    intros _ n _. apply strip_pid_hybrid_text.
  - rewrite (frame_console _ _ _ _ _ F). apply app_nil_r.
  - apply (frame_pid _ _ _ _ _ F).
Qed.

Lemma process_chunk_any_chunk_witness :
  ∃ results w',
    Hybrid.process_chunk [3; -4; 3] sample_world = Some (results, w')
    ∧ results
      = (λ n, "Square of " +:+ str n +:+ " = " +:+ str (n * n)
                +:+ " (PID: " +:+ str (pid sample_world) +:+ ")")
        <$> [3; -4; 3]
    ∧ Forall2 result_for [3; -4; 3] results
    ∧ strip_pid <$> results = square_text <$> [3; -4; 3]
    ∧ console w' = console sample_world ∧ pid w' = pid sample_world.
Proof.
  apply (process_chunk_any_chunk [3; -4; 3] sample_world).
  apply sample_items_fit.
Defined.

(** ** Chunks of any list *)

Lemma range_from_lookup (n k : nat) : ∀ fuel start i j,
  range_from fuel start n k !! i = Some j →
  j = (start + i * k)%nat ∧ (j < n)%nat.
Proof.
  induction fuel as [|fuel IH]; intros start i j; [done|].
  cbn [range_from]. destruct (start <? n)%nat eqn:Hlt; [|done].
  apply Nat.ltb_lt in Hlt. destruct i as [|i].
  - intros [= <-]. lia.
  - intros H. apply IH in H. lia.
Qed.

Lemma range_from_length (n k : nat) :
  (0 < k)%nat → ∀ fuel start, (n - start ≤ fuel)%nat →
  length (range_from fuel start n k) = ceil_div (n - start) k.
Proof.
  intros Hk. unfold ceil_div.
  induction fuel as [|fuel IH]; intros start Hfuel.
  - replace (n - start)%nat with 0%nat by lia. simpl.
    symmetry. apply Nat.div_small. lia.
  - cbn [range_from]. destruct (start <? n)%nat eqn:Hlt.
    + apply Nat.ltb_lt in Hlt. cbn [length]. rewrite IH by lia.
      destruct (decide (n - start ≤ k)%nat) as [Hle|Hgt].
      * replace (n - (start + k))%nat with 0%nat by lia.
        rewrite (Nat.div_small (0 + k - 1)) by lia.
        apply (Nat.div_unique _ _ _ (n - start - 1)); lia.
      * replace (n - start + k - 1)%nat
          with ((n - (start + k) + k - 1) + 1 * k)%nat by lia.
        rewrite Nat.div_add by lia. lia.
    + apply Nat.ltb_ge in Hlt. replace (n - start)%nat with 0%nat by lia.
      simpl. symmetry. apply Nat.div_small. lia.
Qed.

(** X4. For a positive chunk size [k] the hybrid runner's slicing of any
    list [l] is a partition into consecutive slices: the chunks put
    together in order give [l] back, there are ceil(len(l)/k) of them, the
    i-th chunk is [l[i*k : i*k+k]], no chunk is empty or longer than [k],
    and every chunk but the last has exactly [k] items.  (An empty list
    gives no chunk at all.) *)
Theorem chunked_partition {A} (l : list A) (k : nat) :
  (0 < k)%nat →
  concat (chunked l k) = l
  ∧ length (chunked l k) = ceil_div (length l) k
  ∧ ∀ i c, chunked l k !! i = Some c →
      c = take k (drop (i * k) l)
      ∧ (0 < length c ≤ k)%nat
      ∧ ((S i < length (chunked l k))%nat → length c = k).
Proof.
  intros Hk.
  assert (Hlookup : ∀ i c, chunked l k !! i = Some c →
            (i * k < length l)%nat ∧ c = take k (drop (i * k) l)).
  { intros i c. unfold chunked, range. rewrite list_lookup_fmap.
    destruct (range_from (length l) 0 (length l) k !! i) as [j|] eqn:Hj;
      [|done].
    apply range_from_lookup in Hj as [-> Hlt]. simpl. intros [= <-].
    split; [done|]. unfold slice. f_equal. lia. }
  split_and!.
  - by apply concat_chunked.
  - unfold chunked, range. rewrite length_fmap, range_from_length by (done || lia).
    by rewrite Nat.sub_0_r.
  - intros i c Hc. destruct (Hlookup i c Hc) as [Hlt ->].
    rewrite length_take, length_drop. split; [done|]. split; [lia|].
    intros Hnext. destruct (lookup_lt_is_Some_2 _ _ Hnext) as [c' Hc'].
    apply Hlookup in Hc' as [Hlt' _]. lia.
Qed.

Lemma chunked_partition_witness :
  (0 < 4)%nat
  ∧ concat (chunked [10; 20; 30; 40; 50; 60; 70; 80; 90] 4)
    = [10; 20; 30; 40; 50; 60; 70; 80; 90]
  ∧ length (chunked [10; 20; 30; 40; 50; 60; 70; 80; 90] 4)
    = ceil_div (length [10; 20; 30; 40; 50; 60; 70; 80; 90]) 4
  ∧ ∀ i c, chunked [10; 20; 30; 40; 50; 60; 70; 80; 90] 4 !! i = Some c →
      c = take 4 (drop (i * 4) [10; 20; 30; 40; 50; 60; 70; 80; 90])
      ∧ (0 < length c ≤ 4)%nat
      ∧ ((S i < length (chunked [10; 20; 30; 40; 50; 60; 70; 80; 90] 4))%nat →
         length c = 4%nat).
Proof.
  split; [lia|].
  apply (chunked_partition [10; 20; 30; 40; 50; 60; 70; 80; 90] 4). lia.
Defined.

(** X5. In a hybrid run all the lines of one chunk carry one and the same
    process id, and that id is the id of one of the three workers of the
    process pool.  Which worker takes which chunk is the scheduler's
    choice. *)
Theorem hybrid_batch_shares_pid (w : world) :
  ∃ batches w',
    Hybrid.main w = Some (batches, w')
    ∧ Forall2 (λ chunk batch,
        ∃ p, p ∈ [fork w 0; fork w 1; fork w 2]
             ∧ batch = (λ n, square_text n +:+ " (PID: " +:+ str p +:+ ")")
                       <$> chunk)
        Hybrid.chunks batches.
Proof.
  destruct (hybrid_main_spec w) as (batches & Hb & w' & Hrun & _).
  by exists batches, w'.
Qed.

(** X6. For every world the harness runs to its end, reads the clock
    exactly eight times, and records for the k-th strategy (k = 0, 1, 2,
    3) the reading number 2k+1 minus the reading number 2k, counted from
    the first reading it takes: every strategy is timed by a pair of
    consecutive readings of its own, and no reading is used twice. *)
Theorem harness_timings_from_clock (sys_executable SCRIPT_DIR : string)
    (w : world) :
  ∃ timings w',
    Harness.main sys_executable SCRIPT_DIR w = Some (timings, w')
    ∧ clock_reads w' = (clock_reads w + 8)%nat
    ∧ timings
      = [ ("Sequential (No Parallelism)",
           float_sub (clock w (clock_reads w + 1)%nat) (clock w (clock_reads w + 0)%nat));
          ("ThreadPool (14 threads)",
           float_sub (clock w (clock_reads w + 3)%nat) (clock w (clock_reads w + 2)%nat));
          ("ProcessPool (3 processes)",
           float_sub (clock w (clock_reads w + 5)%nat) (clock w (clock_reads w + 4)%nat));
          ("Hybrid (3 proc x 3 threads)",
           float_sub (clock w (clock_reads w + 7)%nat) (clock w (clock_reads w + 6)%nat)) ].
Proof.
  destruct (harness_main_spec sys_executable SCRIPT_DIR w) as (w' & Hrun & F).
  exists (Expected.timings_of w), w'. split_and!.
  - done.
  - apply (frame_reads _ _ _ _ _ F).
  - reflexivity.
Qed.

(** X7. A result line determines its input: if two calls of the workload
    function return the same text, they were given the same number, and
    the same holds for the hybrid variant whatever processes ran the two
    calls.  So the lines of distinct inputs never collide. *)
Theorem result_lines_identify_inputs (n m : Z) (w1 w2 w1' w2' : world)
    (r : string) :
  (square_number n w1 = Some (r, w1') ∧ square_number m w2 = Some (r, w2'))
  ∨ (hybrid_square_number n w1 = Some (r, w1')
     ∧ hybrid_square_number m w2 = Some (r, w2')) →
  n = m.
Proof.
  intros [[H1 H2]|[H1 H2]].
  - rewrite run_square_number_cases in H1.
    rewrite run_square_number_cases in H2.
    destruct (str_fits (n * n)); [|done]. destruct (str_fits (m * m)); [|done].
    injection H1 as H1 _. injection H2 as H2 _.
    assert (H : parse_result (square_text n) = parse_result (square_text m))
      by congruence.
    rewrite !parse_square_text in H. by injection H.
  - rewrite run_hybrid_square_number_cases in H1.
    rewrite run_hybrid_square_number_cases in H2.
    destruct (str_fits (n * n)); [|done]. destruct (str_fits (m * m)); [|done].
    injection H1 as H1 _. injection H2 as H2 _.
    assert (H : parse_result (hybrid_text (pid w1) n)
                = parse_result (hybrid_text (pid w2) m)) by congruence.
    rewrite !parse_hybrid_text in H. by injection H.
Qed.

Lemma result_lines_identify_inputs_witness :
  ((square_number 7 sample_world
    = Some ("Square of 7 = 49", set_sleeps [2] sample_world)
    ∧ square_number 7 (set_pid 5 sample_world)
      = Some ("Square of 7 = 49", set_sleeps [2] (set_pid 5 sample_world)))
   ∨ (hybrid_square_number 7 sample_world
      = Some ("Square of 7 = 49", set_sleeps [2] sample_world)
      ∧ hybrid_square_number 7 (set_pid 5 sample_world)
        = Some ("Square of 7 = 49", set_sleeps [2] (set_pid 5 sample_world))))
  ∧ 7 = 7.
Proof.
  assert (H : square_number 7 sample_world
              = Some ("Square of 7 = 49", set_sleeps [2] sample_world)
            ∧ square_number 7 (set_pid 5 sample_world)
              = Some ("Square of 7 = 49", set_sleeps [2] (set_pid 5 sample_world)))
    by (split; reflexivity).
  split; [by left|].
  exact (result_lines_identify_inputs 7 7 _ _ _ _ _ (or_introl H)).
Defined.

(** * The drills: proofs *)

(** ** [drill_8.py]: the bank account *)

Lemma prog_bind_Ok {A B} (c : Console.Prog A) (k : A → Console.Prog B)
    (m m' : Console.machine) (a : A) :
  c m = (Console.Ok a, m') → (c ≫= k) m = k a m'.
Proof. intros H. unfold mbind, Console.Prog_bind. by rewrite H. Qed.

Lemma prog_bind_Raised {A B} (c : Console.Prog A) (k : A → Console.Prog B)
    (m m' : Console.machine) (e : Console.exn) :
  c m = (Console.Raised e, m') → (c ≫= k) m = (Console.Raised e, m').
Proof. intros H. unfold mbind, Console.Prog_bind. by rewrite H. Qed.

Section Drill8Proofs.
Import Console Drill8.

Example drill8_main_output :
  Drill8.main (mkMachine [] "" ∅)
  = (Ok tt, mkAccount "Alice" 120,
     mkMachine [] "--- Creating Account ---
Account for Alice created with $100

--- Testing Deposit ---
Deposited 50. New Balance: 150

--- Testing Withdraw ---
Withdrew 30. New Balance: 120

--- Testing Overdraft (Should crash if not handled!) ---
Success! Caught expected error: Insufficient Funds
" ∅).
Proof. reflexivity. Qed.

(** What a method does after it has changed the balance: it reports the
    amount and the new balance, which raises when one of them is too long
    to print. *)
Lemma report_line (verb : string) (amount : Z) (self : BankAccount)
    (m : machine) :
  (amount_text ← lift (format_int amount);
   b ← get_balance;
   balance_text ← lift (format_int b);
   lift (print (verb +:+ amount_text +:+ ". New Balance: " +:+ balance_text)))
    self m
  = if str_fits amount && str_fits (balance self)
    then (Ok tt, self,
          mkMachine (typed m)
            (screen m +:+ (verb +:+ str amount +:+ ". New Balance: "
                           +:+ str (balance self)) +:+ "
") (disk m))
    else (Raised (ValueError "Exceeds the limit (4300 digits) for integer string conversion; use sys.set_int_max_str_digits() to increase the limit"),
          self, m).
Proof.
  unfold mbind, Acct_bind, lift, get_balance, format_int.
  destruct (str_fits amount); [|reflexivity].
  unfold mret, Prog_ret. cbv beta iota. cbn [andb].
  destruct (str_fits (balance self)); reflexivity.
Qed.

Lemma run_withdraw (amount : Z) (self : BankAccount) (m : machine) :
  withdraw amount self m
  = if amount <=? balance self then
      (amount_text ← lift (format_int amount);
       b ← get_balance;
       balance_text ← lift (format_int b);
       lift (print ("Withdrew " +:+ amount_text +:+ ". New Balance: "
                    +:+ balance_text)))
        (mkAccount (owner self) (balance self - amount)) m
    else (Raised (ValueError "Insufficient Funds"), self, m).
Proof.
  unfold withdraw. unfold mbind at 1, Acct_bind at 1. unfold get_balance at 1.
  by destruct (amount <=? balance self).
Qed.

Lemma run_deposit (amount : Z) (self : BankAccount) (m : machine) :
  deposit amount self m
  = (amount_text ← lift (format_int amount);
     b ← get_balance;
     balance_text ← lift (format_int b);
     lift (print ("Deposited " +:+ amount_text +:+ ". New Balance: "
                  +:+ balance_text)))
      (mkAccount (owner self) (balance self + amount)) m.
Proof. reflexivity. Qed.

(** X8. [withdraw], called on an [int] balance with an [int] amount,
    never overdraws: when the amount exceeds the balance it raises
    [ValueError] with the message [Insufficient Funds], and the account,
    the screen and the files are as before.  Otherwise the balance goes down by the amount and is not
    negative (an amount equal to the balance leaves zero), the owner is
    unchanged, and the call reports the new balance on one line; only
    when the amount or the new balance has more than 4300 digits does
    that report raise instead, a [ValueError] of another message, after
    the balance has gone down and with nothing printed. *)
Theorem withdraw_never_overdraws (self : BankAccount) (amount : Z) (m : machine) :
  match withdraw amount self m with
  | (Ok _, account, m') =>
      amount ≤ balance self
      ∧ balance account = balance self - amount
      ∧ 0 ≤ balance account
      ∧ owner account = owner self
      ∧ m' = mkMachine (typed m)
               (screen m +:+ ("Withdrew " +:+ str amount +:+ ". New Balance: "
                              +:+ str (balance self - amount)) +:+ "
") (disk m)
  | (Raised e, account, m') =>
      m' = m
      ∧ owner account = owner self
      ∧ ((balance self < amount ∧ e = ValueError "Insufficient Funds"
          ∧ account = self)
         ∨ (amount ≤ balance self
            ∧ balance account = balance self - amount
            ∧ 0 ≤ balance account
            ∧ str_fits amount && str_fits (balance self - amount) = false
            ∧ ∃ msg, e = ValueError msg ∧ msg ≠ "Insufficient Funds"))
  | (OutOfFuel, _, _) => False
  end.
Proof.
  rewrite run_withdraw. destruct (amount <=? balance self) eqn:Hle.
  - apply Z.leb_le in Hle. rewrite report_line. cbn [balance owner].
    destruct (str_fits amount && str_fits (balance self - amount)) eqn:Hfit;
      cbn [balance owner].
    + split_and!; [done|done|lia|done|done].
    + split_and!; [done|done|]. right.
      split_and!; [done|done|lia|done|]. by eexists.
  - apply Z.leb_gt in Hle. split_and!; [done|done|]. by left.
Qed.

(** X9. For an [int] amount of any sign and an [int] balance that is not
    negative, where the amount and the balances before and after the
    deposit have at most 4300 digits: depositing the amount and
    withdrawing it again gives the account back as it was, and both calls
    print their line. *)
Theorem deposit_then_withdraw (self : BankAccount) (amount : Z) (m : machine) :
  0 ≤ balance self →
  str_fits amount = true →
  str_fits (balance self) = true →
  str_fits (balance self + amount) = true →
  (deposit amount;; withdraw amount) self m
  = (Ok tt, self,
     mkMachine (typed m)
       ((screen m +:+ ("Deposited " +:+ str amount +:+ ". New Balance: "
                       +:+ str (balance self + amount)) +:+ "
") +:+ ("Withdrew " +:+ str amount +:+ ". New Balance: "
        +:+ str (balance self)) +:+ "
")
       (disk m)).
Proof.
  intros Hb Ha Hold Hnew. destruct self as [o b]. cbn [balance] in *.
  unfold mbind at 1, Acct_bind at 1.
  rewrite run_deposit, report_line. cbn [balance owner].
  rewrite Ha, Hnew. cbn [andb].
  rewrite run_withdraw, report_line. cbn [balance owner].
  assert (Hle : (amount <=? b + amount) = true) by (apply Z.leb_le; lia).
  rewrite Hle. replace (b + amount - amount) with b by lia.
  rewrite Ha, Hold. reflexivity.
Qed.

Lemma deposit_then_withdraw_witness :
  (deposit 50;; withdraw 50) (mkAccount "Alice" 100) (mkMachine [] "" ∅)
  = (Ok tt, mkAccount "Alice" 100,
     mkMachine [] "Deposited 50. New Balance: 150
Withdrew 50. New Balance: 100
" ∅).
Proof.
  apply (deposit_then_withdraw (mkAccount "Alice" 100) 50 (mkMachine [] "" ∅)).
  - simpl. lia.
  - reflexivity.
  - reflexivity.
  - reflexivity.
Defined.

(** A withdrawal that cannot report its result: the balance has 4301
    digits, one unit is taken from it, and the call raises. *)
Example withdraw_unprintable_balance :
  ∃ msg,
    withdraw 1 (mkAccount "Alice" (10 ^ 4300 + 5)) (mkMachine [] "" ∅)
    = (Raised (ValueError msg),
       mkAccount "Alice" (10 ^ 4300 + 5 - 1), mkMachine [] "" ∅)
    ∧ msg ≠ "Insufficient Funds".
Proof.
  eexists. rewrite run_withdraw, report_line. cbn [balance owner].
  assert ((1 <=? 10 ^ 4300 + 5) = true) as -> by (vm_compute; reflexivity).
  assert (str_fits (10 ^ 4300 + 5 - 1) = false) as ->
    by (vm_compute; reflexivity).
  rewrite andb_false_r. split; [reflexivity|done].
Qed.

End Drill8Proofs.

(** ** [drill_6.py]: asking until a number is typed *)

Section Drill6Proofs.
Import Console Drill6.
Variable py_int : string → option Z.

Local Abbreviation loop := (get_valid_number_loop py_int).

Lemma loop_reject (fuel : nat) (s : string) (rest : list key) (m : machine) :
  typed m = Line s :: rest → py_int s = None →
  loop (S fuel) m
  = loop fuel (mkMachine rest (screen m +:+ retry_text) (disk m)).
Proof.
  destruct m as [keys scr files]. simpl. intros -> Hs.
  unfold try_except, input, int_of, mbind, Prog_bind, write, read_key. simpl.
  rewrite Hs. unfold throw, print, write. simpl.
  by rewrite append_assoc.
Qed.

Lemma loop_accept (fuel : nat) (s : string) (n : Z) (rest : list key)
    (m : machine) :
  typed m = Line s :: rest → py_int s = Some n →
  loop (S fuel) m
  = (Ok (Some n), mkMachine rest (screen m +:+ "Enter a number: ") (disk m)).
Proof.
  destruct m as [keys scr files]. simpl. intros -> Hs.
  unfold try_except, input, int_of, mbind, Prog_bind, write, read_key. simpl.
  by rewrite Hs.
Qed.

Lemma loop_stop (fuel : nat) (m : machine) :
  typed m = [] ∨ (∃ rest, typed m = CtrlC :: rest) →
  loop (S fuel) m
  = (Ok None, mkMachine (tail (typed m))
                (screen m +:+ "Enter a number: 
Goodbye!
") (disk m)).
Proof.
  destruct m as [keys scr files]. simpl. intros [->|[rest ->]];
    unfold try_except, input, int_of, mbind, Prog_bind, write, read_key,
      print, write; simpl; by rewrite append_assoc.
Qed.

Lemma loop_rejects (bad : list string) : ∀ (fuel : nat) (rest : list key)
    (m : machine),
  typed m = (Line <$> bad) ++ rest → Forall (λ s, py_int s = None) bad →
  loop (length bad + fuel) m
  = loop fuel (mkMachine rest
                 (screen m +:+ str_mul retry_text (length bad)) (disk m)).
Proof.
  induction bad as [|s bad IH]; intros fuel rest m Hm Hbad.
  - simpl in *. rewrite append_empty_r. destruct m; simpl in *. by subst.
  - apply Forall_cons in Hbad as [Hs Hbad]. simpl in Hm.
    cbn [length Nat.add]. rewrite (loop_reject _ s _ m Hm Hs).
    rewrite (IH fuel rest) by done. cbn [screen disk str_mul].
    by rewrite append_assoc.
Qed.

Lemma get_valid_number_accepts (bad : list string) (good : string) (n : Z)
    (rest : list key) (m : machine) :
  typed m = (Line <$> bad) ++ Line good :: rest →
  Forall (λ s, py_int s = None) bad → py_int good = Some n →
  get_valid_number py_int m
  = (Ok (Some n),
     mkMachine rest
       (screen m +:+ str_mul retry_text (length bad) +:+ "Enter a number: ")
       (disk m)).
Proof.
  intros Hm Hbad Hgood. unfold get_valid_number.
  replace (S (length (typed m))) with (length bad + S (S (length rest)))%nat.
  - rewrite (loop_rejects bad _ (Line good :: rest) m Hm Hbad).
    erewrite loop_accept by (reflexivity || done).
    cbn [screen disk]. by rewrite append_assoc.
  - rewrite Hm, length_app, length_fmap. simpl. lia.
Qed.

Lemma get_valid_number_gives_up (bad : list string) (stop : list key)
    (m : machine) :
  typed m = (Line <$> bad) ++ stop →
  Forall (λ s, py_int s = None) bad →
  stop = [] ∨ (∃ rest, stop = CtrlC :: rest) →
  get_valid_number py_int m
  = (Ok None,
     mkMachine (tail stop)
       (screen m +:+ str_mul retry_text (length bad) +:+ "Enter a number: 
Goodbye!
")
       (disk m)).
Proof.
  intros Hm Hbad Hstop. unfold get_valid_number.
  replace (S (length (typed m))) with (length bad + S (length stop))%nat.
  - rewrite (loop_rejects bad _ stop m Hm Hbad).
    rewrite loop_stop by done.
    cbn [typed screen disk]. by rewrite append_assoc.
  - rewrite Hm, length_app, length_fmap. lia.
Qed.

Lemma keys_decompose (keys : list key) :
  ∃ bad stop,
    keys = (Line <$> bad) ++ stop ∧ Forall (λ s, py_int s = None) bad
    ∧ (stop = [] ∨ (∃ rest, stop = CtrlC :: rest)
       ∨ (∃ good n rest, stop = Line good :: rest ∧ py_int good = Some n)).
Proof.
  induction keys as [|[s|] keys (bad & stop & -> & Hbad & Hstop)].
  - exists [], []. split_and!; [done|constructor|by left].
  - destruct (py_int s) as [n|] eqn:Hs.
    + exists [], (Line s :: (Line <$> bad) ++ stop).
      split_and!; [done|constructor|]. right. right. by eexists s, n, _.
    + exists (s :: bad), stop. split_and!; [done|by constructor|done].
  - exists [], (CtrlC :: (Line <$> bad) ++ stop).
    split_and!; [done|constructor|]. right. left. by eexists.
Qed.

(** X10. [get_valid_number] returns the first typed line that [int]
    accepts: when the user types lines that [int] rejects and then one it
    accepts, the value of that line is returned, every rejected line has
    cost one prompt and one complaint on the screen, one more prompt was
    shown for the accepted line, and whatever was typed after it is left
    unread. *)
Theorem first_valid_number_wins (bad : list string) (good : string) (n : Z)
    (rest : list key) (m : machine) :
  typed m = (Line <$> bad) ++ Line good :: rest →
  Forall (λ s, py_int s = None) bad → py_int good = Some n →
  get_valid_number py_int m
  = (Ok (Some n),
     mkMachine rest
       (screen m +:+ str_mul retry_text (length bad) +:+ "Enter a number: ")
       (disk m)).
Proof. apply get_valid_number_accepts. Qed.

(** X11. [get_valid_number] gives up at the first Ctrl+C or at the end of
    the input: if only rejected lines were typed before it, the function
    prints a newline and [Goodbye!] after the pending prompt and returns
    [None] instead of raising; keys typed after the Ctrl+C are left
    unread. *)
Theorem gives_up_at_interrupt_or_end (bad : list string) (stop : list key)
    (m : machine) :
  typed m = (Line <$> bad) ++ stop →
  Forall (λ s, py_int s = None) bad →
  stop = [] ∨ (∃ rest, stop = CtrlC :: rest) →
  get_valid_number py_int m
  = (Ok None,
     mkMachine (tail stop)
       (screen m +:+ str_mul retry_text (length bad) +:+ "Enter a number: 
Goodbye!
")
       (disk m)).
Proof. apply get_valid_number_gives_up. Qed.

(** X12. Whatever is typed, [get_valid_number] returns: it never raises
    and its loop always ends.  It reads a prefix of the input and touches
    no file.  A number it returns is the value of a line that was typed,
    and it returns [None] only if [int] rejected every line it read. *)
Theorem get_valid_number_always_returns (m : machine) :
  ∃ r m' used,
    get_valid_number py_int m = (Ok r, m')
    ∧ typed m = used ++ typed m' ∧ disk m' = disk m
    ∧ match r with
      | Some n => ∃ s, Line s ∈ used ∧ py_int s = Some n
      | None => ∀ s, Line s ∈ used → py_int s = None
      end.
Proof.
  destruct (keys_decompose (typed m))
    as (bad & stop & Hm & Hbad & [->|[[rest ->]|(good & n & rest & -> & Hn)]]).
  - eexists None, _, (Line <$> bad).
    rewrite (get_valid_number_gives_up bad [] m Hm Hbad) by by left.
    split_and!; [done|by rewrite Hm|done|].
    intros s (s' & [= <-] & Hs)%list_elem_of_fmap.
    by eapply Forall_forall in Hbad.
  - eexists None, _, ((Line <$> bad) ++ [CtrlC]).
    rewrite (get_valid_number_gives_up bad (CtrlC :: rest) m Hm Hbad)
      by (right; by eexists).
    split_and!; [done|by rewrite Hm, <- app_assoc|done|].
    intros s [(s' & [= <-] & Hs)%list_elem_of_fmap|Hs]%elem_of_app.
    + by eapply Forall_forall in Hbad.
    + by apply list_elem_of_singleton in Hs.
  - eexists (Some n), _, ((Line <$> bad) ++ [Line good]).
    rewrite (get_valid_number_accepts bad good n rest m Hm Hbad Hn).
    split_and!; [done|by rewrite Hm, <- app_assoc|done|].
    exists good. split; [|done]. apply elem_of_app. right.
    by apply list_elem_of_singleton.
Qed.

End Drill6Proofs.

Lemma first_valid_number_wins_witness :
  Console.typed (Console.mkMachine
     [Console.Line "abc"; Console.Line "42"; Console.Line "7"] "" ∅)
  = (Console.Line <$> ["abc"]) ++ Console.Line "42" :: [Console.Line "7"]
  ∧ Forall (λ s, Py.int s = None) ["abc"] ∧ Py.int "42" = Some 42
  ∧ Drill6.get_valid_number Py.int
      (Console.mkMachine
         [Console.Line "abc"; Console.Line "42"; Console.Line "7"] "" ∅)
    = (Console.Ok (Some 42),
       Console.mkMachine [Console.Line "7"]
         "Enter a number: Invalid input. Please enter a valid number.
Enter a number: " ∅).
Proof.
  assert (Hbad : Forall (λ s, Py.int s = None) ["abc"])
    by (repeat constructor).
  split_and!; [reflexivity|exact Hbad|reflexivity|].
  exact (first_valid_number_wins Py.int ["abc"] "42" 42 [Console.Line "7"]
           (Console.mkMachine
              [Console.Line "abc"; Console.Line "42"; Console.Line "7"] "" ∅)
           eq_refl Hbad eq_refl).
Defined.

Lemma gives_up_at_interrupt_or_end_witness :
  Console.typed (Console.mkMachine
     [Console.Line "abc"; Console.CtrlC; Console.Line "7"] "" ∅)
  = (Console.Line <$> ["abc"]) ++ [Console.CtrlC; Console.Line "7"]
  ∧ Forall (λ s, Py.int s = None) ["abc"]
  ∧ ([Console.CtrlC; Console.Line "7"] = []
     ∨ (∃ rest, [Console.CtrlC; Console.Line "7"] = Console.CtrlC :: rest))
  ∧ Drill6.get_valid_number Py.int
      (Console.mkMachine
         [Console.Line "abc"; Console.CtrlC; Console.Line "7"] "" ∅)
    = (Console.Ok None,
       Console.mkMachine [Console.Line "7"]
         "Enter a number: Invalid input. Please enter a valid number.
Enter a number: 
Goodbye!
" ∅).
Proof.
  assert (Hbad : Forall (λ s, Py.int s = None) ["abc"])
    by (repeat constructor).
  assert (Hstop : [Console.CtrlC; Console.Line "7"] = []
            ∨ (∃ rest, [Console.CtrlC; Console.Line "7"] = Console.CtrlC :: rest))
    by (right; by eexists).
  split_and!; [reflexivity|exact Hbad|exact Hstop|].
  exact (gives_up_at_interrupt_or_end Py.int ["abc"]
           [Console.CtrlC; Console.Line "7"]
           (Console.mkMachine
              [Console.Line "abc"; Console.CtrlC; Console.Line "7"] "" ∅)
           eq_refl Hbad Hstop).
Defined.

(** ** The report of [drill_5.py] *)

Section Drill5Proofs.
Import Console Drill5.
Variable csv_reader : string → list (list string).
Variable py_int : string → option Z.
Variable int_truediv : Z → Z → option float.
Variable str_float : float → string.

Let report := generate_stats_report csv_reader py_int int_truediv str_float.
Let add_row : list string → Z * Z → Prog (Z * Z) :=
  λ row '(total_age, count),
    cell ← item row 1;
    age ← int_of py_int cell;
    let total_age := total_age + age in
    let count := count + 1 in
    mret (total_age, count).

Lemma report_unfold input_file output_file m :
  report input_file output_file m =
  (file ← read_file "drill_5_data.csv";
   '(_, reader) ← next_row (csv_reader file);
   '(total_age, count) ← for_each reader add_row (0, 0);
   avg ← truediv int_truediv total_age count;
   write_file "stats.txt" ("Average Age: " +:+ str_float avg)) m.
Proof. reflexivity. Qed.

Lemma ages_loop rows ages total_age count m :
  Forall2 (row_age py_int) rows ages →
  for_each rows add_row (total_age, count) m =
  (Ok (total_age + foldr Z.add 0 ages, count + Z.of_nat (length ages)), m).
Proof.
  intros Hrows. revert total_age count.
  induction Hrows as [|row age rows ages (cell & Hcell & Hage) _ IH];
    intros total_age count.
  - cbn. by rewrite !Z.add_0_r.
  - cbn [for_each]. unfold mbind, Prog_bind at 1.
    assert (add_row row (total_age, count) m
            = (Ok (total_age + age, count + 1), m)) as ->.
    { unfold add_row, item, int_of, mbind, Prog_bind, mret, Prog_ret.
      by rewrite Hcell, Hage. }
    rewrite IH. cbn [foldr length]. do 3 f_equal; lia.
Qed.

Lemma add_row_quiet row acc m :
  (∃ acc', add_row row acc m = (Ok acc', m))
  ∨ (∃ e, add_row row acc m = (Raised e, m)).
Proof.
  destruct acc as [total_age count].
  unfold add_row, item, int_of, throw, mbind, Prog_bind, mret, Prog_ret.
  destruct (row !! 1%nat) as [cell|]; [|right; by eexists].
  destruct (py_int cell) as [age|]; [|right; by eexists].
  left. by eexists.
Qed.

Lemma rows_loop_quiet rows acc m :
  (∃ acc', for_each rows add_row acc m = (Ok acc', m))
  ∨ (∃ e, for_each rows add_row acc m = (Raised e, m)).
Proof.
  revert acc. induction rows as [|row rows IH]; intros acc.
  - left. by eexists.
  - cbn [for_each].
    destruct (add_row_quiet row acc m) as [[acc' Hrow]|[e Hrow]].
    + rewrite (prog_bind_Ok _ _ _ _ _ Hrow). apply IH.
    + rewrite (prog_bind_Raised _ _ _ _ _ Hrow). right. by eexists.
Qed.

(** X13. When the data file has a header, and after it at least one row,
    every row with an age that reads as an integer, the report puts the
    mean of the ages in [stats.txt], whatever the two arguments are, and
    touches nothing else. *)
Theorem report_holds_the_mean input_file output_file m text header rows ages avg :
  disk m !! "drill_5_data.csv" = Some text →
  csv_reader text = header :: rows →
  Forall2 (row_age py_int) rows ages →
  ages ≠ [] →
  int_truediv (foldr Z.add 0 ages) (Z.of_nat (length ages)) = Some avg →
  generate_stats_report csv_reader py_int int_truediv str_float
    input_file output_file m =
  (Ok tt, mkMachine (typed m) (screen m)
            (<["stats.txt" := "Average Age: " +:+ str_float avg]> (disk m))).
Proof.
  intros Hfile Hcsv Hrows Hne Hdiv.
  pose proof (report_unfold input_file output_file m) as Hu.
  unfold report in Hu. rewrite Hu. clear Hu.
  unfold mbind, Prog_bind, read_file. rewrite Hfile, Hcsv.
  cbn [next_row mret Prog_ret].
  rewrite (ages_loop _ _ _ _ _ Hrows). rewrite !Z.add_0_l.
  unfold truediv.
  destruct (Z.eqb_spec (Z.of_nat (length ages)) 0) as [Hz|_].
  { destruct ages; [done|]. cbn [length] in Hz. lia. }
  by rewrite Hdiv.
Qed.

(** X14. The report is all or nothing.  Either it returns, and then it
    has written one line to [stats.txt] and done nothing else, or it
    raises, and then no file and nothing on the screen has changed. *)
Theorem report_all_or_nothing input_file output_file m :
  match generate_stats_report csv_reader py_int int_truediv str_float
          input_file output_file m with
  | (Ok _, m') =>
      ∃ avg, m' = mkMachine (typed m) (screen m)
                    (<["stats.txt" := "Average Age: " +:+ str_float avg]> (disk m))
  | (Raised _, m') => m' = m
  | (OutOfFuel, _) => False
  end.
Proof.
  pose proof (report_unfold input_file output_file m) as Hu.
  unfold report in Hu. rewrite Hu. clear Hu.
  unfold mbind, Prog_bind at 1. unfold read_file.
  destruct (disk m !! "drill_5_data.csv") as [text|]; [|done].
  unfold mbind, Prog_bind at 1. unfold next_row.
  destruct (csv_reader text) as [|header rows]; [done|].
  cbn [mret Prog_ret]. unfold mbind, Prog_bind at 1.
  destruct (rows_loop_quiet rows (0, 0) m) as [([t c] & ->)|[e ->]]; [|done].
  unfold mbind, Prog_bind, truediv, throw.
  destruct (c =? 0); [done|].
  destruct (int_truediv t c) as [avg|]; [|done].
  by exists avg.
Qed.

(** X15. A data file that holds the header and no row after it makes the
    report raise [ZeroDivisionError], and [stats.txt] is not written. *)
Theorem report_needs_a_row input_file output_file m text header :
  disk m !! "drill_5_data.csv" = Some text →
  csv_reader text = [header] →
  generate_stats_report csv_reader py_int int_truediv str_float
    input_file output_file m = (Raised ZeroDivisionError, m).
Proof.
  intros Hfile Hcsv.
  pose proof (report_unfold input_file output_file m) as Hu.
  unfold report in Hu. rewrite Hu. clear Hu.
  unfold mbind, Prog_bind, read_file. by rewrite Hfile, Hcsv.
Qed.

End Drill5Proofs.

Lemma report_holds_the_mean_witness :
  Drill5.generate_stats_report Drill5.sample_csv_reader Py.int
    Drill5.sample_int_truediv Drill5.sample_str_float
    "other.csv" "other.txt" (Console.mkMachine [] "" Drill5.sample_disk) =
  (Console.Ok tt,
   Console.mkMachine [] ""
     (<["stats.txt" := "Average Age: 35.5"]> Drill5.sample_disk)).
Proof.
  etrans.
  - apply (report_holds_the_mean Drill5.sample_csv_reader Py.int
             Drill5.sample_int_truediv Drill5.sample_str_float
             "other.csv" "other.txt" (Console.mkMachine [] "" Drill5.sample_disk)
             "name,age
Ann,30
Bob,41
" ["name"; "age"] [["Ann"; "30"]; ["Bob"; "41"]] [30; 41]
             (float_div (float_of_int 71) (float_of_int 2))).
    + reflexivity.
    + reflexivity.
    + repeat constructor; eexists; split; reflexivity.
    + discriminate.
    + reflexivity.
  - vm_compute. reflexivity.
Defined.

Lemma report_needs_a_row_witness :
  Drill5.generate_stats_report Drill5.sample_csv_reader Py.int
    Drill5.sample_int_truediv Drill5.sample_str_float
    "drill_5_data.csv" "stats.txt"
    (Console.mkMachine [] "" {[ "drill_5_data.csv" := "name,age
" ]}) =
  (Console.Raised Console.ZeroDivisionError,
   Console.mkMachine [] "" {[ "drill_5_data.csv" := "name,age
" ]}).
Proof.
  apply (report_needs_a_row Drill5.sample_csv_reader Py.int
           Drill5.sample_int_truediv Drill5.sample_str_float
           "drill_5_data.csv" "stats.txt" _ "name,age
" ["name"; "age"]).
  - reflexivity.
  - reflexivity.
Defined.

(** ** The expense tracker *)

Section TrackerProofs.
Import Console Tracker.

Lemma first_seen_elem (c : string) (cs : list string) :
  c ∈ first_seen cs ↔ c ∈ cs.
Proof.
  induction cs as [|x cs IH]; [done|]. cbn [first_seen].
  rewrite !elem_of_cons, list_elem_of_filter, IH.
  destruct (decide (c = x)); tauto.
Qed.

Lemma first_seen_NoDup (cs : list string) : NoDup (first_seen cs).
Proof.
  induction cs as [|x cs IH]; [constructor|]. cbn [first_seen].
  constructor; [|by apply NoDup_filter].
  rewrite list_elem_of_filter. by intros [? _].
Qed.

Lemma first_seen_snoc (cs : list string) (c : string) :
  first_seen (cs ++ [c])
  = if decide (c ∈ cs) then first_seen cs else first_seen cs ++ [c].
Proof.
  induction cs as [|x cs IH]; [done|].
  cbn [app first_seen]. rewrite IH.
  destruct (decide (c ∈ cs)) as [Hin|Hout].
  - by rewrite decide_True by (by right).
  - rewrite filter_app. destruct (decide (c = x)) as [->|Hne].
    + rewrite decide_True by (by left).
      rewrite filter_cons_False, filter_nil by (by intros ?).
      by rewrite app_nil_r.
    + rewrite decide_False by (rewrite elem_of_cons; intros [?|?]; done).
      by rewrite filter_cons_True, filter_nil by done.
Qed.

Lemma no_amounts (c : string) (es : list (string * float)) :
  (filter (λ e, e.1 = c) es).*2 = [] ↔ c ∉ es.*1.
Proof.
  induction es as [|[c0 a0] es IH].
  { split; [intros _; apply not_elem_of_nil|done]. }
  rewrite fmap_cons, not_elem_of_cons, <- IH. cbn [fst].
  destruct (decide (c0 = c)) as [->|Hne].
  - rewrite filter_cons_True by done. split; [done|by intros [? _]].
  - rewrite filter_cons_False by done. intuition congruence.
Qed.

Lemma total_of_snoc (c' c : string) (a : float) (es : list (string * float)) :
  total_of c' (es ++ [(c, a)])
  = if decide (c' = c)
    then (if decide (c ∈ es.*1) then float_add (total_of c es) a else a)
    else total_of c' es.
Proof.
  unfold total_of. rewrite filter_app, fmap_app.
  destruct (decide (c' = c)) as [->|Hne].
  - rewrite filter_cons_True, filter_nil by done. cbn [fmap list_fmap snd].
    destruct (decide (c ∈ es.*1)) as [Hin|Hout].
    + destruct ((filter (λ e, e.1 = c) es).*2) as [|a0 amounts] eqn:Hamounts.
      * by apply no_amounts in Hamounts.
      * cbn [app]. by rewrite foldl_app.
    + apply no_amounts in Hout. by rewrite Hout.
  - rewrite filter_cons_False, filter_nil by (cbn; congruence).
    by rewrite app_nil_r.
Qed.

Lemma dict_get_fmap (g : string → float) (c : string) (keys : list string) :
  dict_get c ((λ k, (k, g k)) <$> keys)
  = if decide (c ∈ keys) then Some (g c) else None.
Proof.
  induction keys as [|k keys IH]; [done|].
  cbn [fmap list_fmap dict_get]. fold (fmap (M := list) (λ k, (k, g k)) keys).
  destruct (String.eqb_spec k c) as [->|Hne].
  - by rewrite decide_True by (by left).
  - rewrite IH. destruct (decide (c ∈ keys)).
    + by rewrite decide_True by (by right).
    + by rewrite decide_False by (rewrite elem_of_cons; intros [?|?]; done).
Qed.

Lemma dict_set_fmap_new (g : string → float) (c : string) (v : float)
    (keys : list string) :
  c ∉ keys →
  dict_set c v ((λ k, (k, g k)) <$> keys) = ((λ k, (k, g k)) <$> keys) ++ [(c, v)].
Proof.
  induction keys as [|k keys IH]; [done|]. intros [Hne Hout]%not_elem_of_cons.
  cbn [fmap list_fmap dict_set app].
  fold (fmap (M := list) (λ k, (k, g k)) keys).
  destruct (String.eqb_spec k c) as [->|_]; [done|]. by rewrite IH.
Qed.

Lemma dict_set_fmap_old (g : string → float) (c : string) (v : float)
    (keys : list string) :
  c ∈ keys → NoDup keys →
  dict_set c v ((λ k, (k, g k)) <$> keys)
  = (λ k, (k, if decide (k = c) then v else g k)) <$> keys.
Proof.
  induction keys as [|k keys IH]; [by intros ?%elem_of_nil|].
  intros Hin [Hk Hnd]%NoDup_cons.
  cbn [fmap list_fmap dict_set].
  fold (fmap (M := list) (λ k, (k, g k)) keys).
  fold (fmap (M := list) (λ k, (k, if decide (k = c) then v else g k)) keys).
  destruct (String.eqb_spec k c) as [->|Hne].
  - rewrite decide_True by done. f_equal.
    apply list_fmap_ext. intros i k Hi.
    rewrite decide_False; [done|]. intros ->.
    by apply list_elem_of_lookup_2 in Hi.
  - rewrite decide_False by done. f_equal. apply IH; [|done].
    apply elem_of_cons in Hin as [->|Hin]; done.
Qed.

(** Adding the amounts to the dictionary entry by entry gives the total
    of every category, the categories in the order of their first
    appearance. *)
Lemma tally_totals (es : list (string * float)) :
  foldl tally [] es = totals es.
Proof.
  induction es as [|[c a] es IH] using rev_ind; [done|].
  rewrite foldl_app. cbn [foldl]. rewrite IH.
  unfold tally, totals. cbn [fst snd].
  rewrite dict_get_fmap, fmap_app. cbn [fmap list_fmap fst].
  rewrite first_seen_snoc.
  destruct (decide (c ∈ es.*1)) as [Hin|Hout].
  - rewrite decide_True by (by apply first_seen_elem).
    rewrite dict_set_fmap_old
      by (by apply first_seen_elem || apply first_seen_NoDup).
    apply list_fmap_ext. intros i k Hi.
    rewrite total_of_snoc. destruct (decide (k = c)) as [->|]; [|done].
    by rewrite decide_True.
  - rewrite decide_False by (by rewrite first_seen_elem).
    rewrite dict_set_fmap_new by (by rewrite first_seen_elem).
    rewrite fmap_app. cbn [fmap list_fmap]. f_equal.
    + apply list_fmap_ext. intros i k Hi.
      rewrite total_of_snoc, decide_False; [done|]. intros ->.
      apply Hout, first_seen_elem. by eapply list_elem_of_lookup_2.
    + by rewrite total_of_snoc, decide_True, decide_False.
Qed.

Variable csv_reader : string → list (list string).
Variable csv_row : list string → string.
Variable py_float : string → option float.
Variable str_float : float → string.
Variable today : string.

Let add_row : list string → dict → Prog dict :=
  λ row summary,
    category ← item row 1;
    cell ← item row 2;
    amount ← float_of py_float cell;
    match dict_get category summary with
    | Some total => mret (dict_set category (float_add total amount) summary)
    | None => mret (dict_set category amount summary)
    end.

Let print_item : string * float → unit → Prog unit :=
  λ '(category, amount) _, print (category +:+ ": $" +:+ str_float amount).

Lemma show_summary_unfold (self : ExpenseTracker) (m : machine) :
  show_summary csv_reader py_float str_float self m =
  (print "
--- Expense Summary ---";;
   e ← exists_ (filename self);
   if negb e then print "No expenses yet."
   else
     f ← read_file (filename self);
     '(_, reader) ← next_row (csv_reader f);
     summary ← for_each reader add_row [];
     for_each summary print_item tt) m.
Proof. reflexivity. Qed.

Lemma add_row_entry (row : list string) (e : string * float) (d : dict)
    (m : machine) :
  row_entry py_float row e → add_row row d m = (Ok (tally d e), m).
Proof.
  destruct e as [c a]. intros [Hc (cell & Hcell & Ha)]. cbn [fst snd] in *.
  unfold add_row, item, float_of, tally, mbind, Prog_bind, mret, Prog_ret.
  rewrite Hc, Hcell, Ha. cbn [fst snd]. by destruct (dict_get c d).
Qed.

Lemma entry_row_quiet (row : list string) (d : dict) (m : machine) :
  (∃ d', add_row row d m = (Ok d', m)) ∨ (∃ e, add_row row d m = (Raised e, m)).
Proof.
  unfold add_row, item, float_of, throw, mbind, Prog_bind, mret, Prog_ret.
  destruct (row !! 1%nat) as [c|]; [|right; by eexists].
  destruct (row !! 2%nat) as [cell|]; [|right; by eexists].
  destruct (py_float cell) as [a|]; [|right; by eexists].
  left. destruct (dict_get c d); by eexists.
Qed.

Lemma entries_loop (rows : list (list string)) (entries : list (string * float))
    (d : dict) (m : machine) :
  Forall2 (row_entry py_float) rows entries →
  for_each rows add_row d m = (Ok (foldl tally d entries), m).
Proof.
  intros Hrows. revert d.
  induction Hrows as [|row e rows entries Hrow _ IH]; intros d; [done|].
  cbn [for_each foldl].
  by rewrite (prog_bind_Ok _ _ _ _ _ (add_row_entry row e d m Hrow)).
Qed.

Lemma entries_loop_quiet (rows : list (list string)) (d : dict) (m : machine) :
  (∃ d', for_each rows add_row d m = (Ok d', m))
  ∨ (∃ e, for_each rows add_row d m = (Raised e, m)).
Proof.
  revert d. induction rows as [|row rows IH]; intros d.
  - left. by eexists.
  - cbn [for_each].
    destruct (entry_row_quiet row d m) as [[d' Hrow]|[e Hrow]].
    + rewrite (prog_bind_Ok _ _ _ _ _ Hrow). apply IH.
    + rewrite (prog_bind_Raised _ _ _ _ _ Hrow). right. by eexists.
Qed.

Lemma print_items (d : dict) (m : machine) :
  for_each d print_item tt m
  = (Ok tt, mkMachine (typed m) (screen m +:+ summary_text str_float d) (disk m)).
Proof.
  revert m. induction d as [|[c x] d IH]; intros m.
  - cbn. rewrite append_empty_r. by destruct m.
  - cbn [for_each]. erewrite prog_bind_Ok by reflexivity.
    rewrite IH. cbn [typed screen disk summary_text foldr].
    by rewrite !append_assoc.
Qed.

Lemma show_summary_lines (self : ExpenseTracker) (m : machine) (text : string)
    (header : list string) (rows : list (list string))
    (entries : list (string * float)) :
  disk m !! filename self = Some text →
  csv_reader text = header :: rows →
  Forall2 (row_entry py_float) rows entries →
  show_summary csv_reader py_float str_float self m
  = (Ok tt,
     mkMachine (typed m)
       (screen m +:+ "
--- Expense Summary ---
" +:+ summary_text str_float (totals entries))
       (disk m)).
Proof.
  intros Hfile Hcsv Hrows. rewrite show_summary_unfold.
  erewrite prog_bind_Ok by reflexivity. cbv beta.
  erewrite prog_bind_Ok by reflexivity. cbv beta.
  cbn [typed screen disk]. rewrite Hfile.
  rewrite bool_decide_eq_true_2 by done. cbn [negb].
  erewrite prog_bind_Ok; [|unfold read_file; cbn [disk]; by rewrite Hfile].
  cbv beta. rewrite Hcsv.
  erewrite prog_bind_Ok by reflexivity. cbv beta iota.
  erewrite prog_bind_Ok by (by apply entries_loop). cbv beta.
  rewrite print_items, tally_totals. cbn [typed screen disk].
  by rewrite !append_assoc.
Qed.

Local Abbreviation add_expense' := (add_expense csv_row py_float str_float today).
Local Abbreviation show_summary' := (show_summary csv_reader py_float str_float).

Lemma add_expense_saved (self : ExpenseTracker) (m : machine) (c s : string)
    (a : float) (rest : list key) :
  typed m = Line c :: Line s :: rest → py_float s = Some a →
  add_expense' self m
  = (Ok tt,
     mkMachine rest
       (screen m +:+ "
--- Add New Expense ---
Enter category: Enter amount: Expense Saved!
")
       (<[filename self := default "" (disk m !! filename self)
                           +:+ csv_row [today; c; str_float a]]> (disk m))).
Proof.
  destruct m as [keys scr files]. cbn [typed screen disk]. intros -> Ha.
  unfold add_expense, input, float_of, append_file, print, write, read_key,
    mbind, Prog_bind, mret, Prog_ret.
  cbn [typed screen disk]. rewrite Ha. cbn [typed screen disk].
  unfold writerow_text, to_csv_row, Expense_init.
  cbn [fmap list_fmap date category amount].
  by rewrite !append_assoc.
Qed.

Lemma add_expense_rejected (self : ExpenseTracker) (m : machine) (c s : string)
    (rest : list key) :
  typed m = Line c :: Line s :: rest → py_float s = None →
  add_expense' self m
  = (Raised (ValueError "could not convert string to float"),
     mkMachine rest
       (screen m +:+ "
--- Add New Expense ---
Enter category: Enter amount: ")
       (disk m)).
Proof.
  destruct m as [keys scr files]. cbn [typed screen disk]. intros -> Ha.
  unfold add_expense, input, float_of, throw, print, write, read_key,
    mbind, Prog_bind, mret, Prog_ret.
  cbn [typed screen disk]. rewrite Ha.
  by rewrite !append_assoc.
Qed.

Lemma dict_get_totals (c : string) (es : list (string * float)) :
  dict_get c (totals es)
  = if decide (c ∈ es.*1) then Some (total_of c es) else None.
Proof.
  unfold totals. rewrite dict_get_fmap.
  destruct (decide (c ∈ es.*1)) as [Hin|Hout].
  - by rewrite decide_True by (by apply first_seen_elem).
  - by rewrite decide_False by (by rewrite first_seen_elem).
Qed.

(** X16. When the expense file has a header and after it only rows with a
    category and an amount that reads as a number, the summary prints its
    heading and then one line per category: no category twice, every
    category of the file and no other, in the order of first appearance,
    each with its amounts added up in file order. *)
Theorem summary_totals_by_category (self : ExpenseTracker) (m : machine)
    (text : string) (header : list string) (rows : list (list string))
    (entries : list (string * float)) :
  disk m !! filename self = Some text →
  csv_reader text = header :: rows →
  Forall2 (row_entry py_float) rows entries →
  show_summary csv_reader py_float str_float self m
  = (Ok tt,
     mkMachine (typed m)
       (screen m +:+ "
--- Expense Summary ---
" +:+ summary_text str_float (totals entries))
       (disk m))
  ∧ NoDup (totals entries).*1
  ∧ (∀ c, c ∈ (totals entries).*1 ↔ c ∈ entries.*1)
  ∧ (∀ c, c ∈ entries.*1 →
          dict_get c (totals entries) = Some (total_of c entries)).
Proof.
  intros Hfile Hcsv Hrows.
  assert ((totals entries).*1 = first_seen entries.*1) as ->.
  { unfold totals. rewrite <- list_fmap_compose. apply list_fmap_id. }
  split_and!.
  - by eapply show_summary_lines.
  - apply first_seen_NoDup.
  - intros c. apply first_seen_elem.
  - intros c Hc. by rewrite dict_get_totals, decide_True.
Qed.

(** X17. [add_expense] reads a category and an amount.  If [float] accepts
    the amount, one row (today's date, the category, the amount as [str]
    gives it) goes to the end of the file, creating it if need be, and
    [Expense Saved!] is printed; what the file held is kept.  If [float]
    rejects it, [ValueError] is raised after both prompts, nothing is
    written to the file and [Expense Saved!] is not printed. *)
Theorem add_expense_appends_or_raises (self : ExpenseTracker) (m : machine)
    (c s : string) (rest : list key) :
  typed m = Line c :: Line s :: rest →
  add_expense csv_row py_float str_float today self m
  = match py_float s with
    | Some a =>
        (Ok tt,
         mkMachine rest
           (screen m +:+ "
--- Add New Expense ---
Enter category: Enter amount: Expense Saved!
")
           (<[filename self := default "" (disk m !! filename self)
                               +:+ csv_row [today; c; str_float a]]> (disk m)))
    | None =>
        (Raised (ValueError "could not convert string to float"),
         mkMachine rest
           (screen m +:+ "
--- Add New Expense ---
Enter category: Enter amount: ")
           (disk m))
    end.
Proof.
  intros Hm. destruct (py_float s) as [a|] eqn:Ha.
  - by eapply add_expense_saved.
  - by eapply add_expense_rejected.
Qed.

(** X18. An expense that was just added is in the next summary.  When the
    row that [add_expense] writes reads back as it was written, the
    summary shown after it is the one of the old entries followed by the
    new one: the total of the new entry's category has grown by the
    amount, or the category is new and its total is the amount, and no
    other total has changed. *)
Theorem added_expense_is_summarised (self : ExpenseTracker) (m : machine)
    (text : string) (header : list string) (rows : list (list string))
    (entries : list (string * float)) (c s : string) (a : float)
    (rest : list key) :
  disk m !! filename self = Some text →
  csv_reader text = header :: rows →
  Forall2 (row_entry py_float) rows entries →
  typed m = Line c :: Line s :: rest →
  py_float s = Some a →
  csv_reader (text +:+ csv_row [today; c; str_float a])
  = csv_reader text ++ [[today; c; str_float a]] →
  py_float (str_float a) = Some a →
  (add_expense csv_row py_float str_float today self;;
   show_summary csv_reader py_float str_float self) m
  = (Ok tt,
     mkMachine rest
       (screen m +:+ "
--- Add New Expense ---
Enter category: Enter amount: Expense Saved!
" +:+ "
--- Expense Summary ---
" +:+ summary_text str_float (totals (entries ++ [(c, a)])))
       (<[filename self := text +:+ csv_row [today; c; str_float a]]> (disk m)))
  ∧ dict_get c (totals (entries ++ [(c, a)]))
    = Some (if decide (c ∈ entries.*1)
            then float_add (total_of c entries) a else a)
  ∧ (∀ c', c' ≠ c →
       dict_get c' (totals (entries ++ [(c, a)])) = dict_get c' (totals entries)).
Proof.
  intros Hfile Hcsv Hrows Hm Hs Hback Ha. split_and!.
  - erewrite prog_bind_Ok by (by eapply add_expense_saved). cbv beta.
    rewrite Hfile. cbn [from_option id].
    erewrite show_summary_lines with (entries := entries ++ [(c, a)]).
    + cbn [typed screen disk]. by rewrite !append_assoc.
    + cbn [disk]. apply lookup_insert_eq.
    + rewrite Hback, Hcsv. reflexivity.
    + apply Forall2_app; [done|]. constructor; [|constructor].
      split; [done|]. by exists (str_float a).
  - rewrite dict_get_totals, total_of_snoc, fmap_app.
    rewrite decide_True by (apply elem_of_app; right; by left).
    by destruct (decide (c = c)).
  - intros c' Hne. rewrite !dict_get_totals, total_of_snoc, fmap_app.
    destruct (decide (c' = c)); [done|].
    destruct (decide (c' ∈ entries.*1)) as [Hin|Hout].
    + by rewrite decide_True by (apply elem_of_app; by left).
    + rewrite decide_False; [done|].
      rewrite elem_of_app. intros [?|Hc]; [done|].
      apply list_elem_of_singleton in Hc. done.
Qed.

Local Abbreviation menu_loop' :=
  (menu_loop csv_reader csv_row py_float str_float today).

Lemma add_expense_reads (self : ExpenseTracker) (name : string) (m : machine) :
  ∃ r m' used,
    add_expense' self m = (r, m') ∧ typed m = used ++ typed m'
    ∧ r ≠ OutOfFuel
    ∧ (is_Some (disk m !! name) → is_Some (disk m' !! name)).
Proof.
  destruct m as [keys scr files].
  destruct keys as [|[c|] [|[s|] rest]].
  - by eexists _, _, [].
  - by eexists _, _, [Line c].
  - destruct (py_float s) as [a|] eqn:Ha.
    + erewrite add_expense_saved by done.
      eexists _, _, [Line c; Line s]. split_and!; [done..|].
      cbn [disk]. intros Hname.
      destruct (decide (filename self = name)) as [<-|Hne].
      * by rewrite lookup_insert_eq.
      * by rewrite lookup_insert_ne.
    + erewrite add_expense_rejected by done.
      by eexists _, _, [Line c; Line s].
  - by eexists _, _, [Line c; CtrlC].
  - by eexists _, _, [CtrlC].
  - by eexists _, _, [CtrlC].
  - by eexists _, _, [CtrlC].
Qed.

Lemma show_summary_reads (self : ExpenseTracker) (m : machine) :
  ∃ r m',
    show_summary' self m = (r, m') ∧ typed m' = typed m ∧ disk m' = disk m
    ∧ r ≠ OutOfFuel.
Proof.
  rewrite show_summary_unfold.
  erewrite prog_bind_Ok by reflexivity. cbv beta.
  erewrite prog_bind_Ok by reflexivity. cbv beta.
  cbn [typed screen disk].
  destruct (disk m !! filename self) as [text|] eqn:Hfile.
  - rewrite bool_decide_eq_true_2 by done. cbn [negb].
    erewrite prog_bind_Ok; [|unfold read_file; cbn [disk]; by rewrite Hfile].
    cbv beta. destruct (csv_reader text) as [|header rows].
    { by eexists _, _. }
    erewrite prog_bind_Ok by reflexivity. cbv beta iota.
    match goal with
    | |- context [(_ ≫= _) ?m1] =>
        destruct (entries_loop_quiet rows [] m1) as [[d Hloop]|[e Hloop]]
    end.
    + erewrite prog_bind_Ok by exact Hloop. cbv beta.
      rewrite print_items. by eexists _, _.
    + erewrite prog_bind_Raised by exact Hloop. by eexists _, _.
  - rewrite bool_decide_eq_false_2 by (by intros [? ?]). cbn [negb].
    by eexists _, _.
Qed.

Lemma menu_round (fuel : nat) (tracker : ExpenseTracker) (m : machine) :
  ∃ scr,
    menu_loop' (S fuel) tracker m
    = match typed m with
      | [] => (Raised EOFError, mkMachine [] scr (disk m))
      | CtrlC :: rest => (Raised KeyboardInterrupt, mkMachine rest scr (disk m))
      | Line choice :: rest =>
          (if String.eqb choice "1" then
             add_expense' tracker;; menu_loop' fuel tracker
           else if String.eqb choice "2" then
             show_summary' tracker;; menu_loop' fuel tracker
           else if String.eqb choice "3" then
             print "Goodbye!"
           else
             print "Invalid choice!";; menu_loop' fuel tracker)
            (mkMachine rest scr (disk m))
      end.
Proof.
  destruct m as [keys scr files]. eexists. cbn [menu_loop].
  do 3 (erewrite prog_bind_Ok by reflexivity; cbv beta).
  unfold input. unfold mbind at 1 2. unfold Prog_bind at 1 2.
  unfold write, read_key. cbn [typed screen disk].
  destruct keys as [|[choice|] rest]; reflexivity.
Qed.

Lemma menu_loop_ends (tracker : ExpenseTracker) (fuel : nat) : ∀ m : machine,
  (length (typed m) < fuel)%nat →
  is_Some (disk m !! filename tracker) →
  ∃ r m' used,
    menu_loop' fuel tracker m = (r, m') ∧ typed m = used ++ typed m'
    ∧ is_Some (disk m' !! filename tracker)
    ∧ match r with
      | Ok _ => (∃ used', used = used' ++ [Line "3"])
                ∧ (∃ pre, screen m' = pre +:+ "Goodbye!
")
      | Raised _ => True
      | OutOfFuel => False
      end.
Proof.
  induction fuel as [|fuel IH]; intros m Hlen Hfile; [lia|].
  destruct (menu_round fuel tracker m) as [scr ->].
  destruct (typed m) as [|[choice|] rest] eqn:Hkeys.
  - by eexists _, _, [].
  - set (m1 := mkMachine rest scr (disk m)).
    assert (∀ c : Prog unit,
      (∃ r1 m2 used1, c m1 = (r1, m2) ∧ rest = used1 ++ typed m2
         ∧ r1 ≠ OutOfFuel ∧ is_Some (disk m2 !! filename tracker)) →
      ∃ r m' used,
        (c;; menu_loop' fuel tracker) m1 = (r, m')
        ∧ Line choice :: rest = used ++ typed m'
        ∧ is_Some (disk m' !! filename tracker)
        ∧ match r with
          | Ok _ => (∃ used', used = used' ++ [Line "3"])
                    ∧ (∃ pre, screen m' = pre +:+ "Goodbye!
")
          | Raised _ => True
          | OutOfFuel => False
          end) as Hthen.
    { intros c (r1 & m2 & used1 & Hrun & Hused & Hr1 & Hkept).
      destruct r1 as [[]|e|]; [| |done].
      - rewrite (prog_bind_Ok _ _ _ _ _ Hrun).
        destruct (IH m2) as (r & m' & used2 & -> & Hused2 & Hkept2 & Hr);
          [|done|].
        { simpl in Hlen. rewrite Hused, length_app in Hlen. lia. }
        exists r, m', (Line choice :: used1 ++ used2). split_and!; [done| |done|].
        + rewrite Hused, Hused2. cbn [app]. by rewrite <- app_assoc.
        + destruct r as [[]|e|]; [|done..].
          destruct Hr as [[used' ->] Hscr]. split; [|done].
          exists (Line choice :: used1 ++ used'). cbn [app].
          by rewrite <- app_assoc.
      - rewrite (prog_bind_Raised _ _ _ _ _ Hrun).
        exists (Raised e), m2, (Line choice :: used1). split_and!; [done| |done..].
        by rewrite Hused. }
    destruct (String.eqb_spec choice "1") as [->|_].
    { apply Hthen.
      destruct (add_expense_reads tracker (filename tracker) m1)
        as (r1 & m2 & used1 & Hrun & Hused & Hr1 & Hkept).
      exists r1, m2, used1. split_and!; [done..|]. by apply Hkept. }
    destruct (String.eqb_spec choice "2") as [->|_].
    { apply Hthen.
      destruct (show_summary_reads tracker m1) as (r1 & m2 & Hrun & Hkeys2 & Hdisk & Hr1).
      exists r1, m2, []. split_and!; [done|by rewrite Hkeys2|done|].
      by rewrite Hdisk. }
    destruct (String.eqb_spec choice "3") as [->|_].
    { eexists (Ok tt), _, [Line "3"].
      split_and!; [reflexivity|done|done|by exists []|by exists scr]. }
    apply Hthen. eexists (Ok tt), _, []. by split_and!; [reflexivity|..].
  - by eexists _, _, [CtrlC].
Qed.

(** X19. The menu program ends for every finite input, and it ends
    normally only through choice 3: when it returns, the last key it read
    is the line [3] and the last thing on the screen is [Goodbye!];
    otherwise it has raised (the input ended or was interrupted, or an
    amount or the file could not be read).  Either way it reads a prefix
    of the input, and the expense file exists afterwards. *)
Theorem menu_ends_only_by_exit (m : machine) :
  ∃ r m' used,
    main csv_reader csv_row py_float str_float today m = (r, m')
    ∧ typed m = used ++ typed m'
    ∧ is_Some (disk m' !! "expenses.csv")
    ∧ match r with
      | Ok _ => (∃ used', used = used' ++ [Line "3"])
                ∧ (∃ pre, screen m' = pre +:+ "Goodbye!
")
      | Raised _ => True
      | OutOfFuel => False
      end.
Proof.
  unfold main.
  assert (∃ m0, init csv_row str_float "expenses.csv" m
                = (Ok (mkTracker "expenses.csv"), m0)
                ∧ typed m0 = typed m
                ∧ is_Some (disk m0 !! "expenses.csv")) as (m0 & Hinit & Hkeys & Hfile).
  { unfold init, exists_, write_file, mbind, Prog_bind, mret, Prog_ret.
    cbn [filename].
    destruct (disk m !! "expenses.csv") as [text|] eqn:Hdisk.
    - rewrite bool_decide_eq_true_2 by done. cbn [negb].
      exists m. by rewrite Hdisk.
    - rewrite bool_decide_eq_false_2 by (by intros [? ?]). cbn [negb].
      eexists. split_and!; [reflexivity|done|].
      cbn [disk]. by rewrite lookup_insert_eq. }
  rewrite (prog_bind_Ok _ _ _ _ _ Hinit). rewrite <- Hkeys.
  apply (menu_loop_ends (mkTracker "expenses.csv")); [lia|done].
Qed.

End TrackerProofs.

Lemma summary_totals_by_category_witness :
  Tracker.show_summary Tracker.sample_csv_reader Tracker.sample_float
    Drill5.sample_str_float (Tracker.mkTracker "expenses.csv")
    (Console.mkMachine [] "" Tracker.sample_expenses)
  = (Console.Ok tt,
     Console.mkMachine [] "
--- Expense Summary ---
Food: $20.0
Travel: $30.0
" Tracker.sample_expenses).
Proof.
  etrans.
  - refine (proj1 (summary_totals_by_category Tracker.sample_csv_reader
             Tracker.sample_float Drill5.sample_str_float
             (Tracker.mkTracker "expenses.csv")
             (Console.mkMachine [] "" Tracker.sample_expenses)
             "date,category,amount
2026-01-05,Food,12
2026-01-06,Travel,30
2026-01-09,Food,8
" ["date"; "category"; "amount"]
             [["2026-01-05"; "Food"; "12"]; ["2026-01-06"; "Travel"; "30"];
              ["2026-01-09"; "Food"; "8"]]
             [("Food", float_of_int 12); ("Travel", float_of_int 30);
              ("Food", float_of_int 8)] _ _ _)).
    + reflexivity.
    + reflexivity.
    + repeat (constructor;
              [split; [reflexivity|eexists; split; reflexivity]|]).
      constructor.
  - vm_compute. reflexivity.
Defined.

Lemma add_expense_appends_or_raises_witness :
  Tracker.add_expense Tracker.sample_csv_row Tracker.sample_float
    Drill5.sample_str_float "2026-11-03" (Tracker.mkTracker "expenses.csv")
    (Console.mkMachine [Console.Line "Food"; Console.Line "5"; Console.Line "3"]
       "" ∅)
  = (Console.Ok tt,
     Console.mkMachine [Console.Line "3"] "
--- Add New Expense ---
Enter category: Enter amount: Expense Saved!
" {[ "expenses.csv" := Tracker.sample_csv_row ["2026-11-03"; "Food"; "5.0"] ]}).
Proof.
  etrans.
  - apply (add_expense_appends_or_raises Tracker.sample_csv_row
             Tracker.sample_float Drill5.sample_str_float "2026-11-03"
             (Tracker.mkTracker "expenses.csv")
             (Console.mkMachine
                [Console.Line "Food"; Console.Line "5"; Console.Line "3"] "" ∅)
             "Food" "5" [Console.Line "3"]).
    reflexivity.
  - vm_compute. reflexivity.
Defined.

Lemma added_expense_is_summarised_witness :
  (Tracker.add_expense Tracker.sample_csv_row Tracker.sample_float
     Drill5.sample_str_float "2026-11-03" (Tracker.mkTracker "expenses.csv");;
   Tracker.show_summary Tracker.sample_csv_reader Tracker.sample_float
     Drill5.sample_str_float (Tracker.mkTracker "expenses.csv"))
    (Console.mkMachine [Console.Line "Food"; Console.Line "5"] ""
       Tracker.sample_expenses)
  = (Console.Ok tt,
     Console.mkMachine [] "
--- Add New Expense ---
Enter category: Enter amount: Expense Saved!

--- Expense Summary ---
Food: $25.0
Travel: $30.0
"
       (<["expenses.csv" := "date,category,amount
2026-01-05,Food,12
2026-01-06,Travel,30
2026-01-09,Food,8
" +:+ Tracker.sample_csv_row ["2026-11-03"; "Food"; "5.0"]]>
          Tracker.sample_expenses)).
Proof.
  etrans.
  - refine (proj1 (added_expense_is_summarised Tracker.sample_csv_reader
             Tracker.sample_csv_row Tracker.sample_float
             Drill5.sample_str_float "2026-11-03"
             (Tracker.mkTracker "expenses.csv")
             (Console.mkMachine [Console.Line "Food"; Console.Line "5"] ""
                Tracker.sample_expenses)
             "date,category,amount
2026-01-05,Food,12
2026-01-06,Travel,30
2026-01-09,Food,8
" ["date"; "category"; "amount"]
             [["2026-01-05"; "Food"; "12"]; ["2026-01-06"; "Travel"; "30"];
              ["2026-01-09"; "Food"; "8"]]
             [("Food", float_of_int 12); ("Travel", float_of_int 30);
              ("Food", float_of_int 8)]
             "Food" "5" (float_of_int 5) [] _ _ _ _ _ _ _)).
    + reflexivity.
    + reflexivity.
    + repeat (constructor;
              [split; [reflexivity|eexists; split; reflexivity]|]).
      constructor.
    + reflexivity.
    + reflexivity.
    + vm_compute. reflexivity.
    + vm_compute. reflexivity.
  - vm_compute. reflexivity.
Defined.
